(** * Turn-order schedulers of [pettingzoo/utils/agent_selector.py]

    A shallow embedding of the three selector classes ([AgentSelector],
    [AgentSelector2], [AgentSelector3]) together with the handful of Python
    primitives they rely on (list indexing with negative offsets, [%],
    [list.index], [enumerate], [str.startswith], exceptions and the
    [==] dispatch protocol), followed by the properties of the schedulers. *)

From Stdlib Require Import ZArith List String Bool Lia Sorted.
Import ListNotations.
Open Scope string_scope.
Open Scope list_scope.
Open Scope Z_scope.

(** ** Python primitives *)

Module Py.

(** The exceptions the selectors can raise. *)
Inductive exn : Type :=
| ZeroDivisionError
| IndexError
| ValueError.

Inductive result (A : Type) : Type :=
| Ok (a : A)
| Raise (e : exn).
Arguments Ok {A} a.
Arguments Raise {A} e.

(** Values an identifier of type [Any] ranges over here: integers, strings
    and [None].  [==] on them is structural. *)
Inductive value : Type :=
| VInt (z : Z)
| VStr (s : string)
| VNone.

Definition value_eqb (a b : value) : bool :=
  match a, b with
  | VInt x, VInt y => x =? y
  | VStr x, VStr y => String.eqb x y
  | VNone, VNone => true
  | _, _ => false
  end.

(** [==] on [str | None]. *)
Definition opt_str_eqb (a b : option string) : bool :=
  match a, b with
  | Some x, Some y => String.eqb x y
  | None, None => true
  | _, _ => false
  end.

(** [==] on lists, element by element. *)
Fixpoint list_eqb {A : Type} (eqb : A -> A -> bool) (l1 l2 : list A) : bool :=
  match l1, l2 with
  | [], [] => true
  | a :: l1', b :: l2' => eqb a b && list_eqb eqb l1' l2'
  | _, _ => false
  end.

Definition len {A : Type} (l : list A) : Z := Z.of_nat (List.length l).

(** [l[i]]: a negative [i] counts from the end; out of range raises. *)
Definition getitem {A : Type} (l : list A) (i : Z) : result A :=
  let j := if i <? 0 then i + len l else i in
  if j <? 0 then Raise IndexError
  else match nth_error l (Z.to_nat j) with
       | Some a => Ok a
       | None => Raise IndexError
       end.

(** [a % b] on integers: the result takes the sign of [b]. *)
Definition mod_ (a b : Z) : result Z :=
  if b =? 0 then Raise ZeroDivisionError else Ok (a mod b).

(** [l.index(x)], counting from [i]. *)
Fixpoint index_from {A : Type} (eqb : A -> A -> bool) (x : A) (l : list A) (i : Z)
  : result Z :=
  match l with
  | [] => Raise ValueError
  | a :: l' => if eqb a x then Ok i else index_from eqb x l' (i + 1)
  end.

Definition index {A : Type} (eqb : A -> A -> bool) (x : A) (l : list A) : result Z :=
  index_from eqb x l 0.

(** [enumerate(l)], counting from [i]. *)
Fixpoint enumerate_from {A : Type} (i : Z) (l : list A) : list (Z * A) :=
  match l with
  | [] => []
  | a :: l' => (i, a) :: enumerate_from (i + 1) l'
  end.

Definition enumerate {A : Type} (l : list A) : list (Z * A) := enumerate_from 0 l.

(** [s.startswith(p)]. *)
Definition startswith (s p : string) : bool := String.prefix p s.

(** [x in l]. *)
Definition contains {A : Type} (eqb : A -> A -> bool) (x : A) (l : list A) : bool :=
  existsb (fun a => eqb a x) l.

(** Methods: a computation on the attributes [S] of [self] that returns or
    raises, and leaves the attributes as they were when it stopped. *)
Definition M (S A : Type) : Type := S -> result A * S.

Definition ret {S A : Type} (a : A) : M S A := fun s => (Ok a, s).

Definition bind {S A B : Type} (m : M S A) (k : A -> M S B) : M S B :=
  fun s =>
    match m s with
    | (Ok a, s') => k a s'
    | (Raise e, s') => (Raise e, s')
    end.

Definition lift {S A : Type} (r : result A) : M S A := fun s => (r, s).

Definition get {S A : Type} (f : S -> A) : M S A := fun s => (Ok (f s), s).

Definition modify {S : Type} (f : S -> S) : M S unit := fun s => (Ok tt, f s).

End Py.

Import Py.

Declare Scope py_scope.
Delimit Scope py_scope with py.
Notation "x <- m ;; k" := (bind m (fun x => k))
  (at level 61, m at next level, right associativity) : py_scope.
Notation "m ;; k" := (bind m (fun _ => k))
  (at level 61, right associativity) : py_scope.
Open Scope py_scope.

(** [n] calls of a method in a row, the results in call order. *)
Fixpoint repeat_call {S A : Type} (n : nat) (m : M S A) : M S (list A) :=
  match n with
  | O => ret []
  | Datatypes.S n' => a <- m ;; l <- repeat_call n' m ;; ret (a :: l)
  end.

(** ** [class AgentSelector] *)

Module AgentSelector.

Record t : Type := mk {
  agent_order : list value;
  _current_agent : Z;
  selected_agent : value
}.

Definition set_agent_order (v : list value) : M t unit :=
  modify (fun s => mk v (_current_agent s) (selected_agent s)).
Definition set_current_agent (v : Z) : M t unit :=
  modify (fun s => mk (agent_order s) v (selected_agent s)).
Definition set_selected_agent (v : value) : M t unit :=
  modify (fun s => mk (agent_order s) (_current_agent s) v).

Definition reinit (order : list value) : M t unit :=
  set_agent_order order ;;
  set_current_agent 0 ;;
  set_selected_agent (VInt 0).

(** [__init__] only calls [reinit] on the new object, which assigns every
    attribute without reading any. *)
Definition __init__ (order : list value) : t := mk order 0 (VInt 0).

Definition next : M t value :=
  cur <- get _current_agent ;;
  order <- get agent_order ;;
  cur' <- lift (mod_ (cur + 1) (len order)) ;;
  set_current_agent cur' ;;
  order <- get agent_order ;;
  cur <- get _current_agent ;;
  a <- lift (getitem order (cur - 1)) ;;
  set_selected_agent a ;;
  get selected_agent.

Definition reset : M t value :=
  order <- get agent_order ;;
  reinit order ;;
  next.

Definition is_last : M t bool :=
  sel <- get selected_agent ;;
  order <- get agent_order ;;
  a <- lift (getitem order (-1)) ;;
  ret (value_eqb sel a).

Definition is_first : M t bool :=
  sel <- get selected_agent ;;
  order <- get agent_order ;;
  a <- lift (getitem order 0) ;;
  ret (value_eqb sel a).

(** The comparison of [__eq__] once [isinstance] has passed. *)
Definition same_fields (self other : t) : bool :=
  list_eqb value_eqb (agent_order self) (agent_order other)
  && (_current_agent self =? _current_agent other)
  && value_eqb (selected_agent self) (selected_agent other).

(** The calls a client makes on a selector; a call that raises ends the run. *)
Inductive call : Type :=
| Reinit (order : list value)
| Reset
| Next.

Definition exec (c : call) : M t value :=
  match c with
  | Reinit order => reinit order ;; ret VNone
  | Reset => reset
  | Next => next
  end.

Inductive reachable : t -> Prop :=
| reach_init (order : list value) : reachable (__init__ order)
| reach_call (s : t) (c : call) (r : value) (s' : t) :
    reachable s -> exec c s = (Ok r, s') -> reachable s'.

(** The attributes after a sequence of calls. *)
Definition run (cs : list call) (s : t) : t :=
  fold_left (fun s c => snd (exec c s)) cs s.

End AgentSelector.

(** ** [class AgentSelector2] *)

(** The comprehension
    [[i for i, agent in enumerate(agent_order) if agent.startswith("workstation")]]
    shared by the constructors and [reinit] of the two role-aware selectors. *)
Definition workstations_of (order : list string) : list Z :=
  map fst (filter (fun p => startswith (snd p) "workstation") (enumerate order)).

Module AgentSelector2.

Record t : Type := mk {
  agent_order : list string;
  manager_index : Z;
  workstation_indices : list Z;
  coordination_index : Z;
  _current_index : Z;
  selected_agent : option string
}.

Definition set_agent_order (v : list string) : M t unit :=
  modify (fun s => mk v (manager_index s) (workstation_indices s)
                      (coordination_index s) (_current_index s) (selected_agent s)).
Definition set_manager_index (v : Z) : M t unit :=
  modify (fun s => mk (agent_order s) v (workstation_indices s)
                      (coordination_index s) (_current_index s) (selected_agent s)).
Definition set_workstation_indices (v : list Z) : M t unit :=
  modify (fun s => mk (agent_order s) (manager_index s) v
                      (coordination_index s) (_current_index s) (selected_agent s)).
Definition set_coordination_index (v : Z) : M t unit :=
  modify (fun s => mk (agent_order s) (manager_index s) (workstation_indices s)
                      v (_current_index s) (selected_agent s)).
Definition set_current_index (v : Z) : M t unit :=
  modify (fun s => mk (agent_order s) (manager_index s) (workstation_indices s)
                      (coordination_index s) v (selected_agent s)).
Definition set_selected_agent (v : option string) : M t unit :=
  modify (fun s => mk (agent_order s) (manager_index s) (workstation_indices s)
                      (coordination_index s) (_current_index s) v).

(** A constructor that raises yields no object. *)
Definition __init__ (order : list string) : result t :=
  match index String.eqb "manager" order with
  | Raise e => Raise e
  | Ok mi =>
      let ws := workstations_of order in
      match index String.eqb "coordination" order with
      | Raise e => Raise e
      | Ok ci => Ok (mk order mi ws ci 0 None)
      end
  end.

(** [reinit] assigns attribute by attribute: when [index] raises, the
    attributes assigned so far keep their new values. *)
Definition reinit (order : list string) : M t unit :=
  set_agent_order order ;;
  mi <- lift (index String.eqb "manager" order) ;;
  set_manager_index mi ;;
  set_workstation_indices (workstations_of order) ;;
  ci <- lift (index String.eqb "coordination" order) ;;
  set_coordination_index ci ;;
  set_current_index 0 ;;
  set_selected_agent None.

Definition reset : M t string :=
  set_current_index 0 ;;
  order <- get agent_order ;;
  mi <- get manager_index ;;
  lift (getitem order mi).

Definition next (manager_act coordination_act : bool) (active_agents : list string)
  : M t (option string) :=
  (if manager_act && contains String.eqb "manager" active_agents then
     order <- get agent_order ;;
     mi <- get manager_index ;;
     a <- lift (getitem order mi) ;;
     set_selected_agent (Some a) ;;
     set_current_index 0
   else
     ws <- get workstation_indices ;;
     let total_agents_in_cycle := len ws + 1 in
     cur <- get _current_index ;;
     cycle_index <- lift (mod_ cur total_agents_in_cycle) ;;
     (if cycle_index <? len ws then
        workstation_idx <- lift (getitem ws cycle_index) ;;
        order <- get agent_order ;;
        a <- lift (getitem order workstation_idx) ;;
        set_selected_agent (Some a)
      else
        order <- get agent_order ;;
        ci <- get coordination_index ;;
        a <- lift (getitem order ci) ;;
        set_selected_agent (Some a)) ;;
     cur <- get _current_index ;;
     set_current_index (cur + 1)) ;;
  get selected_agent.

Definition is_last : M t bool :=
  sel <- get selected_agent ;;
  order <- get agent_order ;;
  ci <- get coordination_index ;;
  a <- lift (getitem order ci) ;;
  ret (opt_str_eqb sel (Some a)).

Definition is_first : M t bool :=
  sel <- get selected_agent ;;
  order <- get agent_order ;;
  mi <- get manager_index ;;
  a <- lift (getitem order mi) ;;
  ret (opt_str_eqb sel (Some a)).

Definition same_fields (self other : t) : bool :=
  list_eqb String.eqb (agent_order self) (agent_order other)
  && (_current_index self =? _current_index other)
  && opt_str_eqb (selected_agent self) (selected_agent other).

Inductive call : Type :=
| Reinit (order : list string)
| Reset
| Next (manager_act coordination_act : bool) (active_agents : list string).

Definition exec (c : call) : M t (option string) :=
  match c with
  | Reinit order => reinit order ;; ret None
  | Reset => a <- reset ;; ret (Some a)
  | Next m c act => next m c act
  end.

Inductive reachable : t -> Prop :=
| reach_init (order : list string) (s : t) : __init__ order = Ok s -> reachable s
| reach_call (s : t) (c : call) (r : option string) (s' : t) :
    reachable s -> exec c s = (Ok r, s') -> reachable s'.

Definition run (cs : list call) (s : t) : t :=
  fold_left (fun s c => snd (exec c s)) cs s.

End AgentSelector2.

(** ** [class AgentSelector3] *)

Module AgentSelector3.

Record t : Type := mk {
  agent_order : list string;
  manager_index : Z;
  workstation_indices : list Z;
  coordination_index : Z;
  _current_index : Z;
  selected_agent : option string;
  _previous_agents_in_cycle_indices : list Z
}.

Definition set_agent_order (v : list string) : M t unit :=
  modify (fun s => mk v (manager_index s) (workstation_indices s)
                      (coordination_index s) (_current_index s) (selected_agent s)
                      (_previous_agents_in_cycle_indices s)).
Definition set_manager_index (v : Z) : M t unit :=
  modify (fun s => mk (agent_order s) v (workstation_indices s)
                      (coordination_index s) (_current_index s) (selected_agent s)
                      (_previous_agents_in_cycle_indices s)).
Definition set_workstation_indices (v : list Z) : M t unit :=
  modify (fun s => mk (agent_order s) (manager_index s) v
                      (coordination_index s) (_current_index s) (selected_agent s)
                      (_previous_agents_in_cycle_indices s)).
Definition set_coordination_index (v : Z) : M t unit :=
  modify (fun s => mk (agent_order s) (manager_index s) (workstation_indices s)
                      v (_current_index s) (selected_agent s)
                      (_previous_agents_in_cycle_indices s)).
Definition set_current_index (v : Z) : M t unit :=
  modify (fun s => mk (agent_order s) (manager_index s) (workstation_indices s)
                      (coordination_index s) v (selected_agent s)
                      (_previous_agents_in_cycle_indices s)).
Definition set_selected_agent (v : option string) : M t unit :=
  modify (fun s => mk (agent_order s) (manager_index s) (workstation_indices s)
                      (coordination_index s) (_current_index s) v
                      (_previous_agents_in_cycle_indices s)).
Definition set_previous (v : list Z) : M t unit :=
  modify (fun s => mk (agent_order s) (manager_index s) (workstation_indices s)
                      (coordination_index s) (_current_index s) (selected_agent s) v).

Definition __init__ (order : list string) : result t :=
  match index String.eqb "manager" order with
  | Raise e => Raise e
  | Ok mi =>
      let ws := workstations_of order in
      match index String.eqb "coordination" order with
      | Raise e => Raise e
      | Ok ci => Ok (mk order mi ws ci 0 None [])
      end
  end.

Definition reinit (order : list string) : M t unit :=
  set_agent_order order ;;
  mi <- lift (index String.eqb "manager" order) ;;
  set_manager_index mi ;;
  set_workstation_indices (workstations_of order) ;;
  ci <- lift (index String.eqb "coordination" order) ;;
  set_coordination_index ci ;;
  set_current_index 0 ;;
  set_selected_agent None ;;
  set_previous [].

Definition reset : M t (option string) :=
  set_current_index 0 ;;
  order <- get agent_order ;;
  mi <- get manager_index ;;
  a <- lift (getitem order mi) ;;
  set_selected_agent (Some a) ;;
  set_previous [] ;;
  get selected_agent.

(** [[idx for i, idx in enumerate(workstation_indices) if workstation_act[i] == 1]],
    with [i] the position reached in the enumeration. *)
Fixpoint active_from (i : Z) (ws : list Z) (workstation_act : list Z)
  : result (list Z) :=
  match ws with
  | [] => Ok []
  | idx :: ws' =>
      match getitem workstation_act i with
      | Raise e => Raise e
      | Ok flag =>
          match active_from (i + 1) ws' workstation_act with
          | Raise e => Raise e
          | Ok rest => Ok (if flag =? 1 then idx :: rest else rest)
          end
      end
  end.

(** Lines 208-225 of [next]: the eligible cycle of this call. *)
Definition agents_in_cycle (workstation_act : list Z) : M t (list Z) :=
  ws <- get workstation_indices ;;
  active_workstation_indices <- lift (active_from 0 ws workstation_act) ;;
  match active_workstation_indices with
  | _ :: _ =>
      ci <- get coordination_index ;;
      ret (active_workstation_indices ++ [ci])
  | [] =>
      ws <- get workstation_indices ;;
      ci <- get coordination_index ;;
      mi <- get manager_index ;;
      ret ((ws ++ [ci]) ++ [mi])
  end.

(** Lines 232-235 of [next]: a cycle other than the recorded one restarts
    the position and is recorded. *)
Definition sync_cycle (agents_in_cycle_indices : list Z) : M t unit :=
  prev <- get _previous_agents_in_cycle_indices ;;
  if negb (list_eqb Z.eqb agents_in_cycle_indices prev) then
    set_current_index 0 ;;
    set_previous agents_in_cycle_indices
  else ret tt.

(** Lines 237-243 of [next]. *)
Definition select_in_cycle (agents_in_cycle_indices : list Z) : M t unit :=
  let cycle_length := len agents_in_cycle_indices in
  cur <- get _current_index ;;
  cycle_index <- lift (mod_ cur cycle_length) ;;
  selected_idx <- lift (getitem agents_in_cycle_indices cycle_index) ;;
  order <- get agent_order ;;
  a <- lift (getitem order selected_idx) ;;
  set_selected_agent (Some a) ;;
  cur <- get _current_index ;;
  set_current_index (cur + 1).

Definition next (manager_act : bool) (workstation_act : list Z)
  : M t (option string) :=
  if manager_act then
    order <- get agent_order ;;
    mi <- get manager_index ;;
    a <- lift (getitem order mi) ;;
    set_selected_agent (Some a) ;;
    set_current_index 0 ;;
    set_previous [] ;;
    get selected_agent
  else
    agents_in_cycle_indices <- agents_in_cycle workstation_act ;;
    match agents_in_cycle_indices with
    | [] =>
        set_selected_agent None ;;
        ret None
    | _ :: _ =>
        sync_cycle agents_in_cycle_indices ;;
        select_in_cycle agents_in_cycle_indices ;;
        get selected_agent
    end.

Definition is_last : M t bool :=
  sel <- get selected_agent ;;
  ret (opt_str_eqb sel (Some "coordination")).

Definition is_first : M t bool :=
  sel <- get selected_agent ;;
  ret (opt_str_eqb sel (Some "manager")).

Definition same_fields (self other : t) : bool :=
  list_eqb String.eqb (agent_order self) (agent_order other)
  && (_current_index self =? _current_index other)
  && opt_str_eqb (selected_agent self) (selected_agent other).

Inductive call : Type :=
| Reinit (order : list string)
| Reset
| Next (manager_act : bool) (workstation_act : list Z).

Definition exec (c : call) : M t (option string) :=
  match c with
  | Reinit order => reinit order ;; ret None
  | Reset => reset
  | Next m act => next m act
  end.

Inductive reachable : t -> Prop :=
| reach_init (order : list string) (s : t) : __init__ order = Ok s -> reachable s
| reach_call (s : t) (c : call) (r : option string) (s' : t) :
    reachable s -> exec c s = (Ok r, s') -> reachable s'.

Definition run (cs : list call) (s : t) : t :=
  fold_left (fun s c => snd (exec c s)) cs s.

End AgentSelector3.

(** ** Objects and [==] *)

Module Object.

Inductive instance : Type :=
| OfAgentSelector (s : AgentSelector.t)
| OfAgentSelector2 (s : AgentSelector2.t)
| OfAgentSelector3 (s : AgentSelector3.t).

(** An object is its identity ([id(o)]) and the attributes of its class. *)
Record object : Type := { ident : nat; inst : instance }.

Inductive eq_result : Type :=
| NotImplemented
| Answer (b : bool).

(** [AgentSelector.__eq__]: [isinstance(other, AgentSelector)]. *)
Definition AgentSelector__eq__ (self : AgentSelector.t) (other : object) : eq_result :=
  match inst other with
  | OfAgentSelector o => Answer (AgentSelector.same_fields self o)
  | _ => NotImplemented
  end.

(** [AgentSelector2.__eq__]: [isinstance(other, AgentSelector2)]. *)
Definition AgentSelector2__eq__ (self : AgentSelector2.t) (other : object) : eq_result :=
  match inst other with
  | OfAgentSelector2 o => Answer (AgentSelector2.same_fields self o)
  | _ => NotImplemented
  end.

(** [AgentSelector3.__eq__]: the test is [isinstance(other, AgentSelector2)],
    and an [AgentSelector2] has every attribute the comparison reads. *)
Definition AgentSelector3__eq__ (self : AgentSelector3.t) (other : object) : eq_result :=
  match inst other with
  | OfAgentSelector2 o =>
      Answer (list_eqb String.eqb (AgentSelector3.agent_order self)
                                  (AgentSelector2.agent_order o)
              && (AgentSelector3._current_index self =? AgentSelector2._current_index o)
              && opt_str_eqb (AgentSelector3.selected_agent self)
                             (AgentSelector2.selected_agent o))
  | _ => NotImplemented
  end.

Definition __eq__ (self other : object) : eq_result :=
  match inst self with
  | OfAgentSelector s => AgentSelector__eq__ s other
  | OfAgentSelector2 s => AgentSelector2__eq__ s other
  | OfAgentSelector3 s => AgentSelector3__eq__ s other
  end.

(** [a == b]: [a.__eq__(b)], then the reflected [b.__eq__(a)], then
    identity when both answer [NotImplemented]. *)
Definition py_eq (a b : object) : bool :=
  match __eq__ a b with
  | Answer r => r
  | NotImplemented =>
      match __eq__ b a with
      | Answer r => r
      | NotImplemented => Nat.eqb (ident a) (ident b)
      end
  end.

End Object.

(** ** Invariants and derived notions *)

(** Equality of identifiers is decidable. *)
Definition value_eq_dec (a b : value) : {a = b} + {a <> b}.
Proof.
  decide equality; [apply Z.eq_dec | apply string_dec].
Defined.

(** The role indices are the ones the constructor derives from the order. *)
Definition roles_of (order : list string) (mi : Z) (ws : list Z) (ci : Z) : Prop :=
  index String.eqb "manager" order = Ok mi
  /\ ws = workstations_of order
  /\ index String.eqb "coordination" order = Ok ci.

(** The hierarchical selector. *)
Module Hierarchical.

Import AgentSelector2.

(** The cycle the non-manager branch of [next] walks: the workstations,
    then the coordination agent. *)
Definition sub_cycle (s : t) : list Z :=
  workstation_indices s ++ [coordination_index s].

Definition wf (s : t) : Prop :=
  roles_of (agent_order s) (manager_index s) (workstation_indices s)
           (coordination_index s)
  /\ 0 <= _current_index s.

(** A call is a manager call when the first branch of [next] is taken. *)
Definition manager_call (manager_act : bool) (active_agents : list string) : bool :=
  manager_act && contains String.eqb "manager" active_agents.

End Hierarchical.

(** The dynamic selector. *)
Module Dynamic.

Import AgentSelector3.

Definition wf (s : t) : Prop :=
  roles_of (agent_order s) (manager_index s) (workstation_indices s)
           (coordination_index s).

(** The attributes after the position and the selection are replaced. *)
Definition advanced (s : t) (cur : Z) (a : string) (prev : list Z) : t :=
  mk (agent_order s) (manager_index s) (workstation_indices s)
     (coordination_index s) cur (Some a) prev.

End Dynamic.

(** The order of the scenario the specification walks through. *)
Definition scenario_order : list string :=
  ["manager"; "workstation_0"; "workstation_1"; "coordination"].

(** The identifiers an index list selects from an order. *)
Definition names_of (order : list string) (indices : list Z) : list string :=
  map (fun i => nth (Z.to_nat i) order "") indices.

(** ** Environments around the selectors *)

(** Exceptions, results and dictionaries of the environment code. *)
Module Env.

Inductive exn : Type :=
| PyExn (e : Py.exn)
| KeyError
| Exception (msg : string).

Inductive result (A : Type) : Type :=
| Returns (a : A)
| Raises (e : exn).
Arguments Returns {A} a.
Arguments Raises {A} e.

Definition of_py {A : Type} (r : Py.result A) : result A :=
  match r with
  | Ok a => Returns a
  | Raise e => Raises (PyExn e)
  end.

(** Keys of the dictionaries: integers and strings. *)
Inductive key : Type :=
| KInt (z : Z)
| KStr (s : string).

Definition key_eqb (a b : key) : bool :=
  match a, b with
  | KInt x, KInt y => x =? y
  | KStr x, KStr y => String.eqb x y
  | _, _ => false
  end.

(** A [dict]: its items in insertion order, one per key. *)
Definition dict (K V : Type) : Type := list (K * V).

(** [d.get(k)]; [d[k]] raises [KeyError] where this is [None]. *)
Fixpoint dict_get {K V : Type} (eqb : K -> K -> bool) (k : K) (d : dict K V)
  : option V :=
  match d with
  | [] => None
  | (k', v) :: d' => if eqb k' k then Some v else dict_get eqb k d'
  end.

(** [d[k] = v]: the value of an existing key is replaced in place, a new key
    is added at the end. *)
Fixpoint dict_set {K V : Type} (eqb : K -> K -> bool) (k : K) (v : V) (d : dict K V)
  : dict K V :=
  match d with
  | [] => [(k, v)]
  | (k', v') :: d' =>
      if eqb k' k then (k', v) :: d' else (k', v') :: dict_set eqb k v d'
  end.

End Env.

(** *** [gamma_games/cooperative_pong/cooperative_pong.py] *)

Module CooperativePong.

Import Env.

(** [convert_to_dict]: the items of a list under their positions. *)
Definition convert_to_dict {A : Type} (list_of_list : list A) : dict key A :=
  fold_left (fun dict_of_list p => dict_set key_eqb (KInt (fst p)) (snd p) dict_of_list)
            (enumerate list_of_list) [].

(** An enumerated item as the dictionary item [convert_to_dict] makes of it. *)
Definition keyed {A : Type} (p : Z * A) : key * A := (KInt (fst p), snd p).

Section Step.

(** The wrapped [cooperative_pong_gym] environment is not part of the
    sources: its attributes and its [step] are parameters. *)
Variable Inner Obs Rew Done Info : Type.
Variable inner_step :
  list Z -> Inner -> (list Obs * list Rew * list Done * list Info) * Inner.

(** The test [actions[0] or actions[1] not in (0, 1, 2)]: [or] evaluates its
    right operand only when the left one is falsy. *)
Definition actions_rejected (actions : list Z) : result bool :=
  match of_py (getitem actions 0) with
  | Raises e => Raises e
  | Returns a0 =>
      if negb (a0 =? 0) then Returns true
      else match of_py (getitem actions 1) with
           | Raises e => Raises e
           | Returns a1 => Returns (negb (contains Z.eqb a1 [0; 1; 2]))
           end
  end.

(** [env.step]: the result or the exception, and the wrapped environment as
    the call leaves it. *)
Definition step (actions : list Z) (inner : Inner)
  : result (dict key Obs * dict key Rew * dict key Done * dict key Info) * Inner :=
  match actions_rejected actions with
  | Raises e => (Raises e, inner)
  | Returns true => (Raises (Exception "Actions must be 0, 1 or 2"), inner)
  | Returns false =>
      let '((observation, reward, done, info), inner') := inner_step actions inner in
      let observation_dict := convert_to_dict observation in
      let reward_dict := convert_to_dict reward in
      let info_dict := convert_to_dict info in
      let done_dict := convert_to_dict done in
      match of_py (getitem done 0) with
      | Raises e => (Raises e, inner')
      | Returns d0 =>
          let done_dict := dict_set key_eqb (KStr "__all__") d0 done_dict in
          (Returns (observation_dict, reward_dict, done_dict, info_dict), inner')
      end
  end.

End Step.

End CooperativePong.

(** *** [pettingzoo/gamma/prison/prison.py] *)

Module Prison.

Import Env.

Definition within (a b diff : Z) : bool := Z.abs (a - b) <=? diff.

(** [class Prisoner]; the sprites are images of a type left open.  Positions,
    bounds and movements are integers here: what follows is about calls with
    integer arguments. *)
Record Prisoner (Sprite : Type) : Type := mkPrisoner {
  position : Z * Z;
  left_bound : Z;
  right_bound : Z;
  window : Z * Z * Z * Z;
  name : string;
  first_touch : Z;
  last_touch : Z;
  still_sprite : option Sprite;
  left_sprite : option Sprite;
  right_sprite : option Sprite;
  state : Z;
  sprite_timer_on : bool;
  last_sprite_movement : Z;
  sprite_timer : Z
}.
Arguments mkPrisoner {Sprite}.
Arguments position {Sprite}.
Arguments left_bound {Sprite}.
Arguments right_bound {Sprite}.
Arguments window {Sprite}.
Arguments name {Sprite}.
Arguments first_touch {Sprite}.
Arguments last_touch {Sprite}.
Arguments still_sprite {Sprite}.
Arguments left_sprite {Sprite}.
Arguments right_sprite {Sprite}.
Arguments state {Sprite}.
Arguments sprite_timer_on {Sprite}.
Arguments last_sprite_movement {Sprite}.
Arguments sprite_timer {Sprite}.

Section Methods.

Variable Sprite : Type.

(** [Prisoner.__init__(p, l, r, w, name)]. *)
Definition new_prisoner (p : Z * Z) (l r : Z) (w : Z * Z * Z * Z) (nam : string)
  : Prisoner Sprite :=
  mkPrisoner p l r w nam (-1) (-1) None None None 0 false 0 0.

Definition set_position (v : Z * Z) (p : Prisoner Sprite) : Prisoner Sprite :=
  mkPrisoner v (left_bound p) (right_bound p) (window p) (name p)
    (first_touch p) (last_touch p) (still_sprite p) (left_sprite p) (right_sprite p)
    (state p) (sprite_timer_on p) (last_sprite_movement p) (sprite_timer p).
Definition set_first_touch (v : Z) (p : Prisoner Sprite) : Prisoner Sprite :=
  mkPrisoner (position p) (left_bound p) (right_bound p) (window p) (name p)
    v (last_touch p) (still_sprite p) (left_sprite p) (right_sprite p)
    (state p) (sprite_timer_on p) (last_sprite_movement p) (sprite_timer p).
Definition set_last_touch (v : Z) (p : Prisoner Sprite) : Prisoner Sprite :=
  mkPrisoner (position p) (left_bound p) (right_bound p) (window p) (name p)
    (first_touch p) v (still_sprite p) (left_sprite p) (right_sprite p)
    (state p) (sprite_timer_on p) (last_sprite_movement p) (sprite_timer p).
Definition set_sprite_timer_on (v : bool) (p : Prisoner Sprite) : Prisoner Sprite :=
  mkPrisoner (position p) (left_bound p) (right_bound p) (window p) (name p)
    (first_touch p) (last_touch p) (still_sprite p) (left_sprite p) (right_sprite p)
    (state p) v (last_sprite_movement p) (sprite_timer p).
Definition set_last_sprite_movement (v : Z) (p : Prisoner Sprite) : Prisoner Sprite :=
  mkPrisoner (position p) (left_bound p) (right_bound p) (window p) (name p)
    (first_touch p) (last_touch p) (still_sprite p) (left_sprite p) (right_sprite p)
    (state p) (sprite_timer_on p) v (sprite_timer p).
Definition set_sprite_timer (v : Z) (p : Prisoner Sprite) : Prisoner Sprite :=
  mkPrisoner (position p) (left_bound p) (right_bound p) (window p) (name p)
    (first_touch p) (last_touch p) (still_sprite p) (left_sprite p) (right_sprite p)
    (state p) (sprite_timer_on p) (last_sprite_movement p) v.

(** [Prisoner.set_state]. *)
Definition set_state (st : Z) (p : Prisoner Sprite) : Prisoner Sprite :=
  mkPrisoner (position p) (left_bound p) (right_bound p) (window p) (name p)
    (first_touch p) (last_touch p) (still_sprite p) (left_sprite p) (right_sprite p)
    st (sprite_timer_on p) (last_sprite_movement p) (sprite_timer p).

(** [Prisoner.update_sprite]: three [if] statements in a row. *)
Definition update_sprite (movement : Z) (p : Prisoner Sprite) : Prisoner Sprite :=
  let p :=
    if negb (movement =? 0) then
      set_last_sprite_movement movement (set_sprite_timer 0 (set_sprite_timer_on true p))
    else p in
  let p :=
    if sprite_timer_on p then set_sprite_timer (sprite_timer p + 1) p else p in
  if sprite_timer p >? 2 then
    set_last_sprite_movement 0 (set_sprite_timer_on false (set_sprite_timer 0 p))
  else p.

(** The sprite timer runs from 1 to 2 while it is on; while it is off the
    timer is 0 and the still sprite is shown. *)
Definition timer_consistent (p : Prisoner Sprite) : Prop :=
  (sprite_timer_on p = true -> 1 <= sprite_timer p <= 2)
  /\ (sprite_timer_on p = false -> sprite_timer p = 0 /\ last_sprite_movement p = 0).

(** Where [move_prisoner] puts the prisoner before it looks at the walls. *)
Definition moved_x (continuous : bool) (velocity movement : Z) (p : Prisoner Sprite) : Z :=
  fst (position p) + (if continuous then movement else movement * velocity).

(** The attributes of [class env] that [move_prisoner] reads or writes. *)
Record env : Type := mkEnv {
  prisoners : dict string (Prisoner Sprite);
  continuous : bool;
  velocity : Z
}.

(** The [movement] argument: a scalar, or a sequence whose first item is
    taken ([if not np.isscalar(movement): movement = movement[0]]). *)
Inductive movement_arg : Type :=
| Scalar (z : Z)
| Sequence (l : list Z).

(** The left-wall block of [move_prisoner], on the prisoner and the reward
    so far. *)
Definition touch_left (pr : Prisoner Sprite * Z) : Prisoner Sprite * Z :=
  let '(prisoner, reward) := pr in
  if fst (position prisoner) <? left_bound prisoner then
    let prisoner := set_position (left_bound prisoner, snd (position prisoner)) prisoner in
    let prisoner :=
      if first_touch prisoner =? -1
      then set_first_touch (left_bound prisoner) prisoner else prisoner in
    let reward :=
      if negb (first_touch prisoner =? left_bound prisoner)
         && (last_touch prisoner =? right_bound prisoner)
      then 1 else reward in
    (set_last_touch (left_bound prisoner) prisoner, reward)
  else (prisoner, reward).

(** The right-wall block. *)
Definition touch_right (pr : Prisoner Sprite * Z) : Prisoner Sprite * Z :=
  let '(prisoner, reward) := pr in
  if fst (position prisoner) >? right_bound prisoner then
    let prisoner := set_position (right_bound prisoner, snd (position prisoner)) prisoner in
    let prisoner :=
      if first_touch prisoner =? -1
      then set_first_touch (right_bound prisoner) prisoner else prisoner in
    let reward :=
      if negb (first_touch prisoner =? right_bound prisoner)
         && (last_touch prisoner =? left_bound prisoner)
      then 1 else reward in
    (set_last_touch (right_bound prisoner) prisoner, reward)
  else (prisoner, reward).

(** [env.move_prisoner]: the reward or the exception, and the environment
    with the moved prisoner stored under its identifier. *)
Definition move_prisoner (prisoner_id : string) (movement : movement_arg) (e : env)
  : result Z * env :=
  match dict_get String.eqb prisoner_id (prisoners e) with
  | None => (Raises KeyError, e)
  | Some prisoner =>
      let scalar :=
        match movement with
        | Scalar z => Returns z
        | Sequence l => of_py (getitem l 0)
        end in
      match scalar with
      | Raises x => (Raises x, e)
      | Returns movement =>
          let prisoner := update_sprite movement prisoner in
          let prisoner :=
            if continuous e then
              set_position (fst (position prisoner) + movement, snd (position prisoner))
                           prisoner
            else
              set_position (fst (position prisoner) + movement * velocity e,
                            snd (position prisoner)) prisoner in
          let '(prisoner, reward) := touch_right (touch_left (prisoner, 0)) in
          (Returns reward,
           mkEnv (dict_set String.eqb prisoner_id prisoner (prisoners e))
                 (continuous e) (velocity e))
      end
  end.

End Methods.

End Prison.

(** ** Facts about the primitives *)

Lemma len_nonneg {A : Type} (l : list A) : 0 <= len l.
Proof. unfold len; lia. Qed.

Lemma len_cons {A : Type} (a : A) (l : list A) : len (a :: l) = len l + 1.
Proof. unfold len. change (List.length (a :: l)) with (Datatypes.S (List.length l)). lia. Qed.

Lemma len_app {A : Type} (l1 l2 : list A) : len (l1 ++ l2) = len l1 + len l2.
Proof. unfold len; rewrite length_app; lia. Qed.

Lemma getitem_ok {A : Type} (d : A) (l : list A) (i : Z) :
  0 <= i < len l -> getitem l i = Ok (nth (Z.to_nat i) l d).
Proof.
  intros Hi. unfold getitem.
  destruct (Z.ltb_spec i 0) as [Hneg | _]; [lia |].
  destruct (Z.ltb_spec i 0) as [Hneg | _]; [lia |].
  destruct (nth_error l (Z.to_nat i)) as [a |] eqn:E.
  - now rewrite (nth_error_nth _ _ d E).
  - apply nth_error_None in E. unfold len in Hi. lia.
Qed.

Lemma getitem_neg {A : Type} (d : A) (l : list A) (i : Z) :
  - len l <= i < 0 -> getitem l i = Ok (nth (Z.to_nat (i + len l)) l d).
Proof.
  intros Hi. unfold getitem.
  destruct (Z.ltb_spec i 0) as [_ | Hpos]; [| lia].
  destruct (Z.ltb_spec (i + len l) 0) as [Hneg | _]; [lia |].
  destruct (nth_error l (Z.to_nat (i + len l))) as [a |] eqn:E.
  - now rewrite (nth_error_nth _ _ d E).
  - apply nth_error_None in E. unfold len in *. lia.
Qed.

Lemma getitem_out {A : Type} (l : list A) (i : Z) :
  len l <= i -> getitem l i = Raise IndexError.
Proof.
  intros Hi. unfold getitem. pose proof (len_nonneg l).
  destruct (Z.ltb_spec i 0) as [Hneg | _]; [lia |].
  destruct (Z.ltb_spec i 0) as [Hneg | _]; [lia |].
  destruct (nth_error l (Z.to_nat i)) as [a |] eqn:E; [| reflexivity].
  assert (Hlt : (Z.to_nat i < List.length l)%nat)
    by (apply nth_error_Some; congruence).
  unfold len in Hi. lia.
Qed.

(** The index [next] reads, [(c + 1) % N - 1], is position [c]: the wrap to
    [0] at the end of the order makes it [-1], the last element. *)
Lemma getitem_after_step {A : Type} (d : A) (l : list A) (c : Z) :
  0 <= c < len l ->
  getitem l ((c + 1) mod len l - 1) = Ok (nth (Z.to_nat c) l d).
Proof.
  intros Hc.
  destruct (Z.eq_dec (c + 1) (len l)) as [Hlast | Hmid].
  - rewrite Hlast, Z.mod_same by lia.
    rewrite (getitem_neg d) by lia.
    do 2 f_equal. lia.
  - rewrite Z.mod_small by lia.
    rewrite (getitem_ok d) by lia.
    do 2 f_equal. lia.
Qed.

Lemma firstn_skipn_cons {A : Type} (d : A) (l : list A) (c k : nat) :
  (c < List.length l)%nat ->
  firstn (Datatypes.S k) (skipn c l) = nth c l d :: firstn k (skipn (Datatypes.S c) l).
Proof.
  revert c. induction l as [| a l IH]; intros c Hc; simpl in Hc; [lia |].
  destruct c as [| c]; [reflexivity |].
  change (skipn (Datatypes.S c) (a :: l)) with (skipn c l).
  change (skipn (Datatypes.S (Datatypes.S c)) (a :: l)) with (skipn (Datatypes.S c) l).
  change (nth (Datatypes.S c) (a :: l) d) with (nth c l d).
  apply IH. lia.
Qed.

(** ** The fixed-order selector *)

Section FixedOrder.

Import AgentSelector.

Lemma reinit_is_init (order : list value) (s : t) :
  reinit order s = (Ok tt, __init__ order).
Proof. reflexivity. Qed.

(** One [next] from a position inside a non-empty order. *)
Lemma next_step (s : t) :
  0 <= _current_agent s < len (agent_order s) ->
  next s =
    (Ok (nth (Z.to_nat (_current_agent s)) (agent_order s) VNone),
     mk (agent_order s) ((_current_agent s + 1) mod len (agent_order s))
        (nth (Z.to_nat (_current_agent s)) (agent_order s) VNone)).
Proof.
  intros Hc. destruct s as [order cur sel]; simpl in *.
  unfold next, bind, get, lift, set_current_agent, set_selected_agent, modify, mod_.
  simpl.
  destruct (Z.eqb_spec (len order) 0) as [H0 | _]; [lia |].
  now rewrite (getitem_after_step VNone) by lia.
Qed.

Lemma next_empty (s : t) :
  agent_order s = [] -> next s = (Raise ZeroDivisionError, s).
Proof.
  intros He. destruct s as [order cur sel]; simpl in *; subst order.
  reflexivity.
Qed.

(** [k] calls from position [c] return the [k] identifiers that follow
    position [c], as long as the end of the order is not crossed. *)
Lemma repeat_next_segment (order : list value) (k : nat) :
  forall (c : nat) (s : t),
    agent_order s = order ->
    _current_agent s = Z.of_nat c ->
    (c < List.length order)%nat ->
    (c + k <= List.length order)%nat ->
    exists s',
      repeat_call k next s = (Ok (firstn k (skipn c order)), s')
      /\ agent_order s' = order
      /\ _current_agent s' = Z.of_nat (c + k) mod len order.
Proof.
  induction k as [| k IH]; intros c s Ho Hc Hlt Hle.
  - exists s. repeat split; auto.
    rewrite Hc, Nat.add_0_r, Z.mod_small; [reflexivity | unfold len; lia].
  - change (repeat_call (Datatypes.S k) next)
      with (a <- next ;; l <- repeat_call k next ;; ret (a :: l)).
    unfold bind at 1.
    rewrite next_step by (rewrite Ho, Hc; unfold len; lia).
    rewrite Ho, Hc, Nat2Z.id.
    destruct (Nat.eq_dec (Datatypes.S c) (List.length order)) as [Hend | Hmid].
    + assert (k = 0%nat) by lia. subst k.
      exists (mk order ((Z.of_nat c + 1) mod len order) (nth c order VNone)).
      split; [| split]; [| reflexivity |].
      * rewrite (firstn_skipn_cons VNone) by lia. reflexivity.
      * simpl. do 2 f_equal. lia.
    + set (s1 := mk order ((Z.of_nat c + 1) mod len order) (nth c order VNone)).
      destruct (IH (Datatypes.S c) s1) as (s' & Hrun & Ho' & Hc'); try lia.
      * reflexivity.
      * unfold s1; simpl. rewrite Z.mod_small by (unfold len; lia). lia.
      * exists s'. split; [| split]; auto.
        -- unfold bind at 1. rewrite Hrun. unfold ret.
           now rewrite (firstn_skipn_cons VNone) by lia.
        -- rewrite Hc'. do 2 f_equal. lia.
Qed.

(** A full turn from the start of the order. *)
Lemma repeat_next_full (order : list value) :
  order <> [] ->
  exists s',
    repeat_call (List.length order) next (__init__ order) = (Ok order, s')
    /\ agent_order s' = order
    /\ _current_agent s' = 0.
Proof.
  intros Hne.
  assert (Hlen : (0 < List.length order)%nat)
    by (destruct order; [congruence | simpl; lia]).
  destruct (repeat_next_segment order (List.length order) 0 (__init__ order))
    as (s' & Hrun & Ho & Hc); auto.
  exists s'. split; [| split]; auto.
  - rewrite Hrun. simpl. now rewrite firstn_all.
  - rewrite Hc. simpl. apply Z.mod_same. unfold len. lia.
Qed.

End FixedOrder.

(** C1. Round-robin completeness of [AgentSelector]: on a non-empty order
    without duplicates, [reset()] returns the first identifier and the next
    [N - 1] calls of [next()] return the remaining ones in declared order; the
    [N] calls of [next()] after a reinitialisation return exactly the order,
    every identifier once, and call [N + 1] returns the first identifier
    again. *)
Theorem round_robin_completeness (order : list value) (s : AgentSelector.t) :
  order <> [] ->
  NoDup order ->
  AgentSelector.agent_order s = order ->
  let N := List.length order in
  let first := hd VNone order in
  fst (AgentSelector.reset s) = Ok first
  /\ fst ((AgentSelector.reset ;; repeat_call (N - 1) AgentSelector.next) s)
     = Ok (tl order)
  /\ exists outs s',
       (AgentSelector.reinit order ;; repeat_call N AgentSelector.next) s = (Ok outs, s')
       /\ outs = order
       /\ (forall x, In x order -> count_occ value_eq_dec outs x = 1%nat)
       /\ fst (AgentSelector.next s') = Ok first.
Proof.
  intros Hne Hnd Ho N first.
  assert (Hlen : (0 < List.length order)%nat)
    by (destruct order; [congruence | simpl; lia]).
  assert (Hfirst : nth 0 order VNone = first) by (destruct order; [congruence | reflexivity]).
  assert (Hreset : AgentSelector.reset s
                   = (Ok first, AgentSelector.mk order (1 mod len order) first)).
  { unfold AgentSelector.reset, bind at 1 2, get. rewrite Ho.
    rewrite reinit_is_init, next_step by (simpl; unfold len; lia).
    simpl. now rewrite Hfirst. }
  split; [now rewrite Hreset |]. split.
  - unfold bind. rewrite Hreset.
    destruct (Nat.eq_dec N 1) as [H1 | Hbig].
    + rewrite H1. simpl. destruct order as [| a [| b l]]; simpl in *; try lia; congruence.
    + destruct (repeat_next_segment order (N - 1) 1
                  (AgentSelector.mk order (1 mod len order) first))
        as (s' & Hrun & _); try reflexivity; try (subst N; lia).
      * simpl. apply Z.mod_small. unfold len. subst N. lia.
      * rewrite Hrun. simpl. f_equal.
        destruct order as [| a l]; [congruence |].
        change (skipn 1 (a :: l)) with l. simpl in N. subst N.
        replace (Datatypes.S (List.length l) - 1)%nat with (List.length l) by lia.
        apply firstn_all.
  - destruct (repeat_next_full order Hne) as (s' & Hrun & Ho' & Hc').
    exists order, s'. split; [| split; [reflexivity | split]].
    + unfold bind. rewrite reinit_is_init. exact Hrun.
    + intros x Hin.
      pose proof (proj1 (NoDup_count_occ value_eq_dec order) Hnd x) as Hle.
      pose proof (proj1 (count_occ_In value_eq_dec order x) Hin) as Hgt.
      lia.
    + rewrite next_step by (rewrite Ho', Hc'; unfold len; lia).
      rewrite Ho', Hc'. simpl. now rewrite Hfirst.
Qed.

Lemma round_robin_completeness_witness :
  let order := [VStr "player1"; VStr "player2"; VStr "player3"] in
  let s := AgentSelector.__init__ order in
  order <> []
  /\ NoDup order
  /\ AgentSelector.agent_order s = order
  /\ fst (AgentSelector.reset s) = Ok (VStr "player1")
  /\ fst ((AgentSelector.reset ;; repeat_call 2 AgentSelector.next) s)
     = Ok [VStr "player2"; VStr "player3"].
Proof.
  intros order s.
  assert (Hne : order <> []) by discriminate.
  assert (Hnd : NoDup order).
  { unfold order. repeat constructor; simpl; intuition discriminate. }
  pose proof (round_robin_completeness order s Hne Hnd eq_refl) as H.
  exact (conj Hne (conj Hnd (conj eq_refl (conj (proj1 H) (proj1 (proj2 H)))))).
Defined.

(** ** Role indices *)

Lemma getitem_nth_error {A : Type} (l : list A) (i : Z) (a : A) :
  0 <= i -> nth_error l (Z.to_nat i) = Some a -> getitem l i = Ok a.
Proof.
  intros Hi E. unfold getitem.
  destruct (Z.ltb_spec i 0) as [Hneg | _]; [lia |].
  destruct (Z.ltb_spec i 0) as [Hneg | _]; [lia |].
  now rewrite E.
Qed.

Lemma getitem_total {A : Type} (l : list A) (i : Z) :
  0 <= i < len l -> exists a, getitem l i = Ok a.
Proof.
  intros Hi. destruct (nth_error l (Z.to_nat i)) as [a |] eqn:E.
  - exists a. apply getitem_nth_error; [lia | exact E].
  - apply nth_error_None in E. unfold len in Hi. lia.
Qed.

Lemma index_from_spec {A : Type} (eqb : A -> A -> bool) (x : A) (l : list A) :
  forall k i,
    index_from eqb x l k = Ok i ->
    k <= i < k + len l
    /\ exists a, nth_error l (Z.to_nat (i - k)) = Some a /\ eqb a x = true.
Proof.
  induction l as [| a l IH]; intros k i H; simpl in H; [discriminate |].
  destruct (eqb a x) eqn:E.
  - injection H as <-. split.
    + unfold len; simpl; lia.
    + exists a. now rewrite Z.sub_diag.
  - destruct (IH _ _ H) as (Hr & b & Hn & Hb). split.
    + unfold len in *; simpl; lia.
    + exists b. split; [| exact Hb].
      replace (Z.to_nat (i - k)) with (Datatypes.S (Z.to_nat (i - (k + 1)))) by lia.
      exact Hn.
Qed.

Lemma index_from_found {A : Type} (eqb : A -> A -> bool) (x : A) (l : list A) :
  (exists a, In a l /\ eqb a x = true) ->
  forall k, exists i, index_from eqb x l k = Ok i.
Proof.
  induction l as [| a l IH]; intros (b & Hin & Hb) k; simpl in *; [contradiction |].
  destruct (eqb a x) eqn:E; [now exists k |].
  apply IH. exists b. split; [| exact Hb].
  destruct Hin as [-> | Hin]; [congruence | exact Hin].
Qed.

Lemma index_from_missing {A : Type} (eqb : A -> A -> bool) (x : A) (l : list A) :
  (forall a, In a l -> eqb a x = false) ->
  forall k, index_from eqb x l k = Raise ValueError.
Proof.
  induction l as [| a l IH]; intros H k; simpl; [reflexivity |].
  rewrite (H a) by now left.
  apply IH. intros b Hb. apply H. now right.
Qed.

Lemma index_raises {A : Type} (eqb : A -> A -> bool) (x : A) (l : list A) (e : exn) :
  index eqb x l = Raise e -> e = ValueError.
Proof.
  unfold index. generalize 0. induction l as [| a l IH]; intros k H; simpl in H.
  - congruence.
  - destruct (eqb a x); [discriminate | eauto].
Qed.

(** [order.index(name)] answers a position that holds [name]. *)
Lemma index_str_ok (name : string) (order : list string) (i : Z) :
  index String.eqb name order = Ok i ->
  0 <= i < len order /\ getitem order i = Ok name.
Proof.
  intros H. destruct (index_from_spec _ _ _ _ _ H) as (Hr & a & Hn & Ha).
  apply String.eqb_eq in Ha. subst a. rewrite Z.sub_0_r in Hn.
  split; [lia |]. apply getitem_nth_error; [lia | exact Hn].
Qed.

Lemma index_str_found (name : string) (order : list string) :
  In name order -> exists i, index String.eqb name order = Ok i.
Proof.
  intros Hin. apply index_from_found. exists name. split; [exact Hin |].
  apply String.eqb_refl.
Qed.

Lemma index_str_missing (name : string) (order : list string) :
  ~ In name order -> index String.eqb name order = Raise ValueError.
Proof.
  intros Hnin. apply index_from_missing. intros a Ha.
  apply String.eqb_neq. intros ->. contradiction.
Qed.

Lemma enumerate_from_range {A : Type} (l : list A) :
  forall k i a, In (i, a) (enumerate_from k l) -> k <= i < k + len l.
Proof.
  induction l as [| b l IH]; intros k i a H; simpl in H; [contradiction |].
  destruct H as [H | H].
  - injection H as <- _. unfold len; simpl; lia.
  - apply IH in H. unfold len in *; simpl; lia.
Qed.

Lemma workstations_of_range (order : list string) (i : Z) :
  In i (workstations_of order) -> 0 <= i < len order.
Proof.
  unfold workstations_of, enumerate. intros H.
  apply in_map_iff in H. destruct H as ([j a] & <- & H).
  apply filter_In in H. destruct H as [H _].
  apply enumerate_from_range in H. simpl. lia.
Qed.

Lemma roles_manager order mi ws ci :
  roles_of order mi ws ci -> getitem order mi = Ok "manager".
Proof. intros (H & _). now apply index_str_ok in H. Qed.

Lemma roles_coordination order mi ws ci :
  roles_of order mi ws ci -> getitem order ci = Ok "coordination".
Proof. intros (_ & _ & H). now apply index_str_ok in H. Qed.

Lemma roles_index_range order mi ws ci :
  roles_of order mi ws ci ->
  forall i, In i ((ws ++ [ci]) ++ [mi]) -> 0 <= i < len order.
Proof.
  intros (Hm & -> & Hc) i Hin.
  apply index_str_ok in Hm. apply index_str_ok in Hc.
  rewrite !in_app_iff in Hin. simpl in Hin.
  destruct Hin as [[Hin | [<- | []]] | [<- | []]]; try tauto.
  now apply workstations_of_range.
Qed.

Lemma nth_in_range {A : Type} (d : A) (l : list A) (k : Z) :
  0 <= k < len l -> In (nth (Z.to_nat k) l d) l.
Proof. intros Hk. apply nth_In. unfold len in Hk. lia. Qed.

(** ** The hierarchical selector *)

Section HierarchicalFacts.

Import AgentSelector2 Hierarchical.

Ltac run_m :=
  unfold next, reset, reinit, is_first, is_last, bind, get, lift, ret,
    set_agent_order, set_manager_index, set_workstation_indices,
    set_coordination_index, set_current_index, set_selected_agent, modify;
  simpl.

Lemma init_wf2 (order : list string) (s : t) : __init__ order = Ok s -> wf s.
Proof.
  unfold __init__. intros H.
  destruct (index String.eqb "manager" order) as [mi |] eqn:Em; [| discriminate].
  destruct (index String.eqb "coordination" order) as [ci |] eqn:Ec; [| discriminate].
  injection H as <-. repeat split; simpl; auto; lia.
Qed.

Lemma reinit_wf2 (order : list string) (s s' : t) :
  reinit order s = (Ok tt, s') -> wf s'.
Proof.
  run_m. intros H.
  destruct (index String.eqb "manager" order) as [mi |] eqn:Em; [| discriminate].
  destruct (index String.eqb "coordination" order) as [ci |] eqn:Ec; [| discriminate].
  injection H as <-. repeat split; simpl; auto; lia.
Qed.

Lemma reset_spec2 (s : t) :
  wf s ->
  reset s = (Ok "manager",
             mk (agent_order s) (manager_index s) (workstation_indices s)
                (coordination_index s) 0 (selected_agent s)).
Proof.
  intros (Hr & _). run_m. now rewrite (roles_manager _ _ _ _ Hr).
Qed.

(** The manager branch. *)
Lemma next_manager2 (s : t) (c : bool) (act : list string) :
  wf s ->
  contains String.eqb "manager" act = true ->
  next true c act s
  = (Ok (Some "manager"),
     mk (agent_order s) (manager_index s) (workstation_indices s)
        (coordination_index s) 0 (Some "manager")).
Proof.
  intros (Hr & _) Hact. run_m. rewrite Hact. simpl.
  now rewrite (roles_manager _ _ _ _ Hr).
Qed.

(** The cycling branch: the identifier at position
    [_current_index % (W + 1)] of the sub-cycle, and the position grows by
    one. *)
Lemma next_cycle2 (s : t) (m c : bool) (act : list string) :
  wf s ->
  manager_call m act = false ->
  exists a,
    getitem (agent_order s)
      (nth (Z.to_nat (_current_index s mod len (sub_cycle s))) (sub_cycle s) 0)
    = Ok a
    /\ next m c act s
       = (Ok (Some a),
          mk (agent_order s) (manager_index s) (workstation_indices s)
             (coordination_index s) (_current_index s + 1) (Some a)).
Proof.
  intros (Hr & Hc) Hm. unfold manager_call in Hm.
  pose proof (len_nonneg (workstation_indices s)) as HW.
  assert (Hlen : len (sub_cycle s) = len (workstation_indices s) + 1)
    by (unfold sub_cycle; rewrite len_app; reflexivity).
  pose proof (Z.mod_pos_bound (_current_index s) (len (sub_cycle s))) as Hk.
  rewrite Hlen in *.
  set (k := _current_index s mod (len (workstation_indices s) + 1)) in *.
  assert (Hin : In (nth (Z.to_nat k) (sub_cycle s) 0)
                   ((workstation_indices s ++ [coordination_index s])
                      ++ [manager_index s])).
  { apply in_or_app. left. apply nth_in_range.
    change (0 <= k < len (sub_cycle s)). rewrite Hlen. lia. }
  apply (roles_index_range _ _ _ _ Hr) in Hin.
  destruct (getitem_total (agent_order s) _ Hin) as (a & Ha).
  exists a. split; [exact Ha |].
  run_m. rewrite Hm. unfold mod_.
  destruct (Z.eqb_spec (len (workstation_indices s) + 1) 0) as [H0 | _]; [lia |].
  fold k. simpl.
  destruct (Z.ltb_spec k (len (workstation_indices s))) as [Hlt | Hge].
  - rewrite (getitem_ok 0) by lia. simpl.
    unfold sub_cycle in Ha. rewrite app_nth1 in Ha by (unfold len in Hlt; lia).
    now rewrite Ha.
  - simpl. unfold sub_cycle in Ha.
    rewrite app_nth2 in Ha by (unfold len in Hge; lia).
    replace (Z.to_nat k - List.length (workstation_indices s))%nat with 0%nat in Ha
      by (unfold len in *; lia).
    simpl in Ha. now rewrite Ha.
Qed.

Lemma next_wf2 (s : t) (m c : bool) (act : list string) (r : option string) (s' : t) :
  wf s -> next m c act s = (Ok r, s') -> wf s'.
Proof.
  intros Hwf H. destruct (manager_call m act) eqn:Hm.
  - unfold manager_call in Hm. apply andb_prop in Hm. destruct Hm as [-> Hact].
    rewrite (next_manager2 s c act Hwf Hact) in H. injection H as _ <-.
    destruct Hwf as (Hr & _). split; simpl; [exact Hr | lia].
  - destruct (next_cycle2 s m c act Hwf Hm) as (a & _ & Hn).
    rewrite Hn in H. injection H as _ <-.
    destruct Hwf as (Hr & Hc). split; simpl; [exact Hr | lia].
Qed.

Lemma reachable_wf2 (s : t) : reachable s -> wf s.
Proof.
  induction 1 as [order s Hi | s c r s' _ IH Hc].
  - exact (init_wf2 order s Hi).
  - destruct c as [order | | m c act]; simpl in Hc.
    + unfold bind at 1 in Hc.
      destruct (reinit order s) as [[[] | e] s1] eqn:E; [| discriminate].
      unfold ret in Hc. injection Hc as _ <-. exact (reinit_wf2 _ _ _ E).
    + unfold bind at 1 in Hc. rewrite (reset_spec2 s IH) in Hc.
      unfold ret in Hc. injection Hc as _ <-.
      destruct IH as (Hr & _). split; simpl; [exact Hr | lia].
    + exact (next_wf2 _ _ _ _ _ _ IH Hc).
Qed.

End HierarchicalFacts.

(** ** The dynamic selector *)

Lemma list_eqb_Z_spec (l1 l2 : list Z) : list_eqb Z.eqb l1 l2 = true <-> l1 = l2.
Proof.
  revert l2. induction l1 as [| a l1 IH]; intros [| b l2]; simpl;
    try (split; [discriminate | congruence]); try tauto.
  rewrite andb_true_iff, Z.eqb_eq, IH. split.
  - intros [-> ->]. reflexivity.
  - intros H. injection H as -> ->. auto.
Qed.

Section DynamicFacts.

Import AgentSelector3 Dynamic.

Ltac run_m :=
  unfold next, reset, reinit, is_first, is_last, agents_in_cycle, sync_cycle,
    select_in_cycle, bind, get, lift, ret,
    set_agent_order, set_manager_index, set_workstation_indices,
    set_coordination_index, set_current_index, set_selected_agent,
    set_previous, modify;
  simpl.

(** A vector at least as long as the workstation list is read without
    error, and the active workstations are workstations. *)
Lemma active_from_ok (act : list Z) (ws : list Z) :
  forall i, 0 <= i -> i + len ws <= len act ->
  exists l, active_from i ws act = Ok l /\ incl l ws.
Proof.
  induction ws as [| idx ws IH]; intros i Hi Hle; simpl.
  - exists []. split; [reflexivity | apply incl_refl].
  - pose proof (len_cons idx ws) as Hlen.
    pose proof (len_nonneg ws).
    destruct (getitem_total act i) as (flag & ->); [lia |].
    destruct (IH (i + 1)) as (l & -> & Hl); [lia | lia |].
    exists (if flag =? 1 then idx :: l else l). split; [reflexivity |].
    destruct (flag =? 1).
    + intros x [<- | Hx]; [now left | right; auto].
    + intros x Hx. right. auto.
Qed.

(** A vector shorter than the workstation list makes the comprehension
    raise. *)
Lemma active_from_short (act : list Z) (ws : list Z) :
  forall i, 0 <= i <= len act -> len act < i + len ws ->
  active_from i ws act = Raise IndexError.
Proof.
  induction ws as [| idx ws IH]; intros i Hi Hlt.
  - unfold len in *; simpl in *. lia.
  - pose proof (len_cons idx ws) as Hlen.
    simpl. destruct (Z.eq_dec i (len act)) as [-> | Hne].
    + rewrite getitem_out by lia. reflexivity.
    + destruct (getitem_total act i) as (flag & ->); [lia |].
      rewrite IH by lia. reflexivity.
Qed.

(** Flags beyond the workstation count are never read. *)
Lemma active_from_firstn (act : list Z) (n : nat) (ws : list Z) :
  forall i, 0 <= i -> i + len ws <= Z.of_nat n ->
  active_from i ws (firstn n act) = active_from i ws act.
Proof.
  induction ws as [| idx ws IH]; intros i Hi Hle; simpl; [reflexivity |].
  pose proof (len_cons idx ws) as Hlen.
  pose proof (len_nonneg ws).
  rewrite IH by lia.
  replace (getitem (firstn n act) i) with (getitem act i); [reflexivity |].
  unfold getitem.
  destruct (Z.ltb_spec i 0) as [Hneg | _]; [lia |].
  destruct (Z.ltb_spec i 0) as [Hneg | _]; [lia |].
  rewrite nth_error_firstn.
  destruct (Nat.ltb_spec (Z.to_nat i) n) as [_ | Hge]; [reflexivity | lia].
Qed.

Lemma agents_in_cycle_ok (s : t) (act : list Z) :
  wf s ->
  len (workstation_indices s) <= len act ->
  exists c cycle,
    agents_in_cycle act s = (Ok (c :: cycle), s)
    /\ forall i, In i (c :: cycle) -> 0 <= i < len (agent_order s).
Proof.
  intros Hr Hlen.
  destruct (active_from_ok act (workstation_indices s) 0) as (l & Hl & Hincl);
    [lia | lia |].
  run_m. rewrite Hl. destruct l as [| a l]; simpl.
  - destruct (workstation_indices s) as [| w ws] eqn:Ews; simpl.
    + eexists _, _. split; [reflexivity |].
      intros i Hi. apply (roles_index_range _ _ _ _ Hr).
      rewrite Ews. exact Hi.
    + eexists _, _. split; [reflexivity |].
      intros i Hi. apply (roles_index_range _ _ _ _ Hr).
      rewrite Ews. exact Hi.
  - eexists _, _. split; [reflexivity |].
    intros i Hi. apply (roles_index_range _ _ _ _ Hr).
    apply in_or_app. left.
    simpl in Hi. destruct Hi as [<- | Hi].
    + apply in_or_app. left. apply Hincl. now left.
    + apply in_app_or in Hi. destruct Hi as [Hi | Hi].
      * apply in_or_app. left. apply Hincl. now right.
      * apply in_or_app. now right.
Qed.

Lemma agents_in_cycle_short (s : t) (act : list Z) :
  len act < len (workstation_indices s) ->
  agents_in_cycle act s = (Raise IndexError, s).
Proof.
  intros Hlt. pose proof (len_nonneg act). run_m.
  rewrite active_from_short by lia. reflexivity.
Qed.

Lemma sync_cycle_same (s : t) (cycle : list Z) :
  cycle = _previous_agents_in_cycle_indices s ->
  sync_cycle cycle s = (Ok tt, s).
Proof.
  intros H. run_m.
  now rewrite (proj2 (list_eqb_Z_spec _ _) H).
Qed.

Lemma sync_cycle_changed (s : t) (cycle : list Z) :
  cycle <> _previous_agents_in_cycle_indices s ->
  sync_cycle cycle s
  = (Ok tt,
     mk (agent_order s) (manager_index s) (workstation_indices s)
        (coordination_index s) 0 (selected_agent s) cycle).
Proof.
  intros H. run_m.
  destruct (list_eqb Z.eqb cycle (_previous_agents_in_cycle_indices s)) eqn:E.
  - apply list_eqb_Z_spec in E. contradiction.
  - reflexivity.
Qed.

(** Selection inside a non-empty cycle of valid indices. *)
Lemma select_in_cycle_ok (s : t) (cycle : list Z) :
  cycle <> [] ->
  (forall i, In i cycle -> 0 <= i < len (agent_order s)) ->
  exists a,
    getitem (agent_order s)
      (nth (Z.to_nat (_current_index s mod len cycle)) cycle 0) = Ok a
    /\ select_in_cycle cycle s
       = (Ok tt, advanced s (_current_index s + 1) a
                   (_previous_agents_in_cycle_indices s)).
Proof.
  intros Hne Hrange.
  assert (Hpos : 0 < len cycle)
    by (destruct cycle; [congruence | unfold len; simpl; lia]).
  pose proof (Z.mod_pos_bound (_current_index s) (len cycle) Hpos) as Hk.
  set (k := _current_index s mod len cycle) in *.
  assert (Hin : 0 <= nth (Z.to_nat k) cycle 0 < len (agent_order s))
    by (apply Hrange; now apply nth_in_range).
  destruct (getitem_total (agent_order s) _ Hin) as (a & Ha).
  exists a. split; [exact Ha |].
  run_m. unfold mod_.
  destruct (Z.eqb_spec (len cycle) 0) as [H0 | _]; [lia |].
  fold k. rewrite (getitem_ok 0) by lia. now rewrite Ha.
Qed.

Lemma next_manager3 (s : t) (act : list Z) :
  wf s ->
  next true act s = (Ok (Some "manager"), advanced s 0 "manager" []).
Proof.
  intros Hr. run_m. now rewrite (roles_manager _ _ _ _ Hr).
Qed.

(** A non-manager call: the cycle is computed, compared with the recorded
    one, and the selection is made at the resulting position. *)
Lemma next_cycle3 (s : t) (act : list Z) :
  wf s ->
  len (workstation_indices s) <= len act ->
  exists cycle s1 a,
    agents_in_cycle act s = (Ok cycle, s)
    /\ cycle <> []
    /\ sync_cycle cycle s = (Ok tt, s1)
    /\ ((cycle = _previous_agents_in_cycle_indices s /\ s1 = s)
        \/ (cycle <> _previous_agents_in_cycle_indices s
            /\ _current_index s1 = 0
            /\ _previous_agents_in_cycle_indices s1 = cycle))
    /\ getitem (agent_order s)
         (nth (Z.to_nat (_current_index s1 mod len cycle)) cycle 0) = Ok a
    /\ next false act s
       = (Ok (Some a),
          advanced s (_current_index s1 + 1) a (_previous_agents_in_cycle_indices s1)).
Proof.
  intros Hr Hlen.
  destruct (agents_in_cycle_ok s act Hr Hlen) as (c & cycle & Hcyc & Hrange).
  assert (Hsync : exists s1, sync_cycle (c :: cycle) s = (Ok tt, s1)
                             /\ agent_order s1 = agent_order s
                             /\ advanced s1 = advanced s
                             /\ ((c :: cycle = _previous_agents_in_cycle_indices s
                                  /\ s1 = s)
                                 \/ (c :: cycle <> _previous_agents_in_cycle_indices s
                                     /\ _current_index s1 = 0
                                     /\ _previous_agents_in_cycle_indices s1
                                        = c :: cycle))).
  { destruct (list_eq_dec Z.eq_dec (c :: cycle) (_previous_agents_in_cycle_indices s))
      as [E | E].
    - exists s. split; [now apply sync_cycle_same | auto].
    - eexists. split; [now apply sync_cycle_changed |].
      repeat split; auto. }
  destruct Hsync as (s1 & Hsync & Ho & Hadv & Hcase).
  destruct (select_in_cycle_ok s1 (c :: cycle)) as (a & Ha & Hsel);
    [discriminate | now rewrite Ho |].
  exists (c :: cycle), s1, a.
  split; [exact Hcyc |]. split; [discriminate |]. split; [exact Hsync |].
  split; [exact Hcase |]. split; [now rewrite <- Ho |].
  unfold next. unfold bind at 1. rewrite Hcyc.
  unfold bind at 1. rewrite Hsync.
  unfold bind at 1. rewrite Hsel.
  rewrite Hadv. reflexivity.
Qed.

Lemma next_short3 (s : t) (act : list Z) :
  len act < len (workstation_indices s) ->
  next false act s = (Raise IndexError, s).
Proof.
  intros Hlt. unfold next, bind at 1.
  now rewrite (agents_in_cycle_short s act Hlt).
Qed.

Lemma reset_spec3 (s : t) :
  wf s -> reset s = (Ok (Some "manager"), advanced s 0 "manager" []).
Proof.
  intros Hr. run_m. now rewrite (roles_manager _ _ _ _ Hr).
Qed.

Lemma init_wf3 (order : list string) (s : t) :
  __init__ order = Ok s -> wf s /\ 0 <= _current_index s.
Proof.
  unfold __init__. intros H.
  destruct (index String.eqb "manager" order) as [mi |] eqn:Em; [| discriminate].
  destruct (index String.eqb "coordination" order) as [ci |] eqn:Ec; [| discriminate].
  injection H as <-. repeat split; simpl; auto; lia.
Qed.

Lemma reinit_wf3 (order : list string) (s s' : t) :
  reinit order s = (Ok tt, s') -> wf s' /\ 0 <= _current_index s'.
Proof.
  run_m. intros H.
  destruct (index String.eqb "manager" order) as [mi |] eqn:Em; [| discriminate].
  destruct (index String.eqb "coordination" order) as [ci |] eqn:Ec; [| discriminate].
  injection H as <-. repeat split; simpl; auto; lia.
Qed.

Lemma next_wf3 (s : t) (m : bool) (act : list Z) (r : option string) (s' : t) :
  wf s -> 0 <= _current_index s ->
  next m act s = (Ok r, s') -> wf s' /\ 0 <= _current_index s'.
Proof.
  intros Hr Hc H. destruct m.
  - rewrite (next_manager3 s act Hr) in H. injection H as _ <-.
    split; [exact Hr | simpl; lia].
  - destruct (Z.lt_ge_cases (len act) (len (workstation_indices s))) as [Hlt | Hge].
    + rewrite (next_short3 s act Hlt) in H. discriminate.
    + destruct (next_cycle3 s act Hr Hge)
        as (cycle & s1 & a & _ & _ & _ & Hcase & _ & Hn).
      rewrite Hn in H. injection H as _ <-.
      split; [exact Hr | simpl].
      destruct Hcase as [(_ & ->) | (_ & -> & _)]; lia.
Qed.

Lemma reachable_wf3 (s : t) : reachable s -> wf s /\ 0 <= _current_index s.
Proof.
  induction 1 as [order s Hi | s c r s' _ [IHr IHc] Hc].
  - exact (init_wf3 order s Hi).
  - destruct c as [order | | m act]; simpl in Hc.
    + unfold bind at 1 in Hc.
      destruct (reinit order s) as [[[] | e] s1] eqn:E; [| discriminate].
      unfold ret in Hc. injection Hc as _ <-. exact (reinit_wf3 _ _ _ E).
    + rewrite (reset_spec3 s IHr) in Hc. injection Hc as _ <-.
      split; [exact IHr | simpl; lia].
    + exact (next_wf3 _ _ _ _ _ IHr IHc Hc).
Qed.

End DynamicFacts.

(** ** The scenario of the specification *)

(** C2. The dynamic selector on the order
    [manager, workstation_0, workstation_1, coordination]: [reset()] returns
    the manager; [next(False, [1, 0])] returns workstation_0 from the cycle
    [workstation_0, coordination]; the same call again returns coordination,
    the position going from 1 to 2 without a restart; a call with
    [manager_act=True] returns the manager and leaves the position at 0; the
    call after it with [[0, 0]] engages the fallback cycle, restarts the
    position at 0 and returns workstation_0. *)
Theorem dynamic_concrete_scenario :
  exists s0 s1 s2 s3 s4 s5,
    AgentSelector3.__init__ scenario_order = Ok s0
    /\ AgentSelector3.reset s0 = (Ok (Some "manager"), s1)
    /\ AgentSelector3.next false [1; 0] s1 = (Ok (Some "workstation_0"), s2)
    /\ AgentSelector3._previous_agents_in_cycle_indices s2 = [1; 3]
    /\ AgentSelector3._current_index s2 = 1
    /\ AgentSelector3.next false [1; 0] s2 = (Ok (Some "coordination"), s3)
    /\ AgentSelector3._current_index s3 = 2
    /\ (forall act, AgentSelector3.next true act s3 = (Ok (Some "manager"), s4))
    /\ AgentSelector3._current_index s4 = 0
    /\ AgentSelector3.agents_in_cycle [0; 0] s4 = (Ok [1; 2; 3; 0], s4)
    /\ AgentSelector3._current_index (snd (AgentSelector3.sync_cycle [1; 2; 3; 0] s4)) = 0
    /\ AgentSelector3.next false [0; 0] s4 = (Ok (Some "workstation_0"), s5)
    /\ AgentSelector3._previous_agents_in_cycle_indices s5 = [1; 2; 3; 0]
    /\ AgentSelector3._current_index s5 = 1.
Proof.
  exists (AgentSelector3.mk scenario_order 0 [1; 2] 3 0 None []).
  exists (AgentSelector3.mk scenario_order 0 [1; 2] 3 0 (Some "manager") []).
  exists (AgentSelector3.mk scenario_order 0 [1; 2] 3 1 (Some "workstation_0") [1; 3]).
  exists (AgentSelector3.mk scenario_order 0 [1; 2] 3 2 (Some "coordination") [1; 3]).
  exists (AgentSelector3.mk scenario_order 0 [1; 2] 3 0 (Some "manager") []).
  exists (AgentSelector3.mk scenario_order 0 [1; 2] 3 1 (Some "workstation_0")
            [1; 2; 3; 0]).
  split; [vm_compute; reflexivity |].
  split; [vm_compute; reflexivity |].
  split; [vm_compute; reflexivity |].
  split; [reflexivity |].
  split; [reflexivity |].
  split; [vm_compute; reflexivity |].
  split; [reflexivity |].
  split.
  { intros act. rewrite next_manager3; [reflexivity | vm_compute; repeat split]. }
  split; [reflexivity |].
  split; [vm_compute; reflexivity |].
  split; [vm_compute; reflexivity |].
  split; [vm_compute; reflexivity |].
  split; reflexivity.
Qed.

(** ** Manager preemption *)




(** ** Detection of a changed cycle *)

Section CycleChange.

Import AgentSelector3 Dynamic.

(** The eligible cycle depends on the role indices only. *)
Lemma agents_in_cycle_advanced (s : t) (act : list Z) (cycle : list Z)
      (cur : Z) (a : string) (prev : list Z) :
  agents_in_cycle act s = (Ok cycle, s) ->
  agents_in_cycle act (advanced s cur a prev) = (Ok cycle, advanced s cur a prev).
Proof.
  unfold agents_in_cycle, bind, get, lift, ret. simpl.
  destruct (active_from 0 (workstation_indices s) act) as [[| x l] | e];
    intros H; try discriminate; injection H as <-; reflexivity.
Qed.

(** While the computed cycle is the recorded one, every call moves the
    position by exactly one. *)
Lemma repeat_next_unchanged (act : list Z) (cycle : list Z) (n : nat) :
  forall s,
    wf s ->
    len (workstation_indices s) <= len act ->
    agents_in_cycle act s = (Ok cycle, s) ->
    _previous_agents_in_cycle_indices s = cycle ->
    exists outs s',
      repeat_call n (next false act) s = (Ok outs, s')
      /\ _current_index s' = _current_index s + Z.of_nat n
      /\ _previous_agents_in_cycle_indices s' = cycle.
Proof.
  induction n as [| n IH]; intros s Hwf Hlen Hcyc Hprev.
  - exists [], s. repeat split; auto. simpl. lia.
  - destruct (next_cycle3 s act Hwf Hlen)
      as (cycle' & s1 & a & Hcyc' & _ & _ & Hcase & _ & Hn).
    assert (cycle' = cycle) by congruence. subst cycle'.
    destruct Hcase as [(_ & ->) | (Hne & _)]; [| congruence].
    destruct (IH (advanced s (_current_index s + 1) a
                    (_previous_agents_in_cycle_indices s)))
      as (outs & s' & Hrun & Hc & Hp).
    + exact Hwf.
    + exact Hlen.
    + now apply agents_in_cycle_advanced.
    + exact Hprev.
    + exists (Some a :: outs), s'. split; [| split; [| exact Hp]].
      * change (repeat_call (Datatypes.S n) (next false act))
          with (r <- next false act ;; l <- repeat_call n (next false act) ;;
                ret (r :: l)).
        unfold bind at 1. rewrite Hn.
        unfold bind at 1. rewrite Hrun. reflexivity.
      * rewrite Hc. simpl. lia.
Qed.

End CycleChange.

(** C4. Set-change detection of the dynamic selector.  On a non-manager call
    the eligible cycle is compared by value, order included, with the
    recorded one.  When they are equal the position is left alone and grows by
    one; after any first call with a given activity vector, every further call
    with that vector moves the position by exactly one, so it strictly
    increases.  When they differ the position is restarted at 0 and the new
    cycle recorded on that very call: the selection is the first element of
    the cycle and the position is 1 once the call has counted it. *)
Theorem set_change_detection (s : AgentSelector3.t) (act : list Z) :
  Dynamic.wf s ->
  len (AgentSelector3.workstation_indices s) <= len act ->
  exists cycle,
    AgentSelector3.agents_in_cycle act s = (Ok cycle, s)
    /\ (cycle = AgentSelector3._previous_agents_in_cycle_indices s ->
        exists a s',
          AgentSelector3.next false act s = (Ok (Some a), s')
          /\ AgentSelector3._current_index s' = AgentSelector3._current_index s + 1
          /\ AgentSelector3._previous_agents_in_cycle_indices s' = cycle)
    /\ (cycle <> AgentSelector3._previous_agents_in_cycle_indices s ->
        AgentSelector3._current_index (snd (AgentSelector3.sync_cycle cycle s)) = 0
        /\ AgentSelector3._previous_agents_in_cycle_indices
             (snd (AgentSelector3.sync_cycle cycle s)) = cycle
        /\ exists a s',
             AgentSelector3.next false act s = (Ok (Some a), s')
             /\ getitem (AgentSelector3.agent_order s) (nth 0 cycle 0) = Ok a
             /\ AgentSelector3._current_index s' = 1
             /\ AgentSelector3._previous_agents_in_cycle_indices s' = cycle)
    /\ (forall r s1,
          AgentSelector3.next false act s = (Ok r, s1) ->
          forall n,
            exists outs sn,
              repeat_call n (AgentSelector3.next false act) s1 = (Ok outs, sn)
              /\ AgentSelector3._current_index sn
                 = AgentSelector3._current_index s1 + Z.of_nat n
              /\ AgentSelector3._previous_agents_in_cycle_indices sn = cycle).
Proof.
  intros Hwf Hlen.
  destruct (next_cycle3 s act Hwf Hlen)
    as (cycle & s1 & a & Hcyc & Hne & Hsync & Hcase & Ha & Hn).
  exists cycle. split; [exact Hcyc |]. split; [| split].
  - intros Heq. destruct Hcase as [(_ & ->) | (Hdiff & _)]; [| contradiction].
    exists a. eexists. split; [exact Hn |]. split; [reflexivity | now symmetry].
  - intros Hdiff. destruct Hcase as [(Heq & _) | (_ & Hz & Hp)]; [contradiction |].
    rewrite Hsync. simpl. split; [exact Hz |]. split; [exact Hp |].
    exists a. eexists. split; [exact Hn |].
    rewrite Hz, Zmod_0_l in Ha. split; [exact Ha |].
    rewrite Hz, Hp. split; reflexivity.
  - intros r s' Hr n. rewrite Hn in Hr. injection Hr as _ <-.
    apply repeat_next_unchanged.
    + exact Hwf.
    + exact Hlen.
    + now apply agents_in_cycle_advanced.
    + destruct Hcase as [(Heq & ->) | (_ & _ & Hp)]; [now symmetry | exact Hp].
Qed.

(** A state whose recorded cycle has the members of the computed one in
    another order: the call restarts the position. *)
Lemma set_change_detection_witness :
  let s := AgentSelector3.mk scenario_order 0 [1; 2] 3 5 (Some "coordination") [3; 1] in
  Dynamic.wf s
  /\ len (AgentSelector3.workstation_indices s) <= len [1; 0]
  /\ exists cycle,
       AgentSelector3.agents_in_cycle [1; 0] s = (Ok cycle, s)
       /\ (cycle <> AgentSelector3._previous_agents_in_cycle_indices s ->
           exists a s',
             AgentSelector3.next false [1; 0] s = (Ok (Some a), s')
             /\ AgentSelector3._current_index s' = 1
             /\ AgentSelector3._previous_agents_in_cycle_indices s' = cycle).
Proof.
  intros s.
  assert (Hwf : Dynamic.wf s) by (vm_compute; repeat split).
  assert (Hlen : len (AgentSelector3.workstation_indices s) <= len [1; 0])
    by (vm_compute; discriminate).
  split; [exact Hwf |]. split; [exact Hlen |].
  destruct (set_change_detection s [1; 0] Hwf Hlen) as (cycle & Hcyc & _ & Hchg & _).
  exists cycle. split; [exact Hcyc |].
  intros Hdiff. destruct (Hchg Hdiff) as (_ & _ & a & s' & Hn & _ & Hc & Hp).
  exists a, s'. split; [exact Hn |]. split; [exact Hc | exact Hp].
Defined.

(** ** Equality of selectors *)

Lemma value_eqb_refl (v : value) : value_eqb v v = true.
Proof.
  destruct v; simpl; [apply Z.eqb_refl | apply String.eqb_refl | reflexivity].
Qed.

Lemma opt_str_eqb_refl (o : option string) : opt_str_eqb o o = true.
Proof. destruct o; simpl; [apply String.eqb_refl | reflexivity]. Qed.

Lemma opt_str_eqb_eq (a b : option string) : opt_str_eqb a b = true <-> a = b.
Proof.
  destruct a as [x |], b as [y |]; simpl; try (split; [discriminate | congruence]);
    try tauto.
  rewrite String.eqb_eq. split; congruence.
Qed.

Lemma list_eqb_refl {A : Type} (eqb : A -> A -> bool) (l : list A) :
  (forall a, eqb a a = true) -> list_eqb eqb l l = true.
Proof.
  intros Hr. induction l as [| a l IH]; simpl; [reflexivity |].
  now rewrite Hr, IH.
Qed.

(** Two fixed-order selectors built from one order and driven by one
    sequence of calls compare equal. *)
Lemma identical_drive_equal1 (order : list value) (cs : list AgentSelector.call)
      (i j : nat) :
  let s := AgentSelector.run cs (AgentSelector.__init__ order) in
  Object.py_eq {| Object.ident := i; Object.inst := Object.OfAgentSelector s |}
               {| Object.ident := j; Object.inst := Object.OfAgentSelector s |}
  = true.
Proof.
  intros s. unfold Object.py_eq, Object.__eq__, Object.AgentSelector__eq__. simpl.
  unfold AgentSelector.same_fields.
  now rewrite (list_eqb_refl _ _ value_eqb_refl), Z.eqb_refl, value_eqb_refl.
Qed.

(** So do two hierarchical selectors. *)
Lemma identical_drive_equal2 (s0 : AgentSelector2.t) (cs : list AgentSelector2.call)
      (i j : nat) :
  let s := AgentSelector2.run cs s0 in
  Object.py_eq {| Object.ident := i; Object.inst := Object.OfAgentSelector2 s |}
               {| Object.ident := j; Object.inst := Object.OfAgentSelector2 s |}
  = true.
Proof.
  intros s. unfold Object.py_eq, Object.__eq__, Object.AgentSelector2__eq__. simpl.
  unfold AgentSelector2.same_fields.
  now rewrite (list_eqb_refl _ _ String.eqb_refl), Z.eqb_refl, opt_str_eqb_refl.
Qed.

(** C5. Equality under identical drive, at the dynamic selector:
    [AgentSelector3.__eq__] tests [isinstance(other, AgentSelector2)], so for
    two [AgentSelector3] objects both [__eq__] calls answer [NotImplemented]
    and [==] falls back to identity.  Two distinct dynamic selectors built from
    the same order and driven by the same calls therefore compare unequal,
    after any sequence of calls. *)
Theorem identical_drive_unequal3 (order : list string) (s0 : AgentSelector3.t)
        (cs : list AgentSelector3.call) (i j : nat) :
  AgentSelector3.__init__ order = Ok s0 ->
  i <> j ->
  let s := AgentSelector3.run cs s0 in
  Object.py_eq {| Object.ident := i; Object.inst := Object.OfAgentSelector3 s |}
               {| Object.ident := j; Object.inst := Object.OfAgentSelector3 s |}
  = false.
Proof.
  intros _ Hij s. unfold Object.py_eq, Object.__eq__, Object.AgentSelector3__eq__.
  simpl. now apply Nat.eqb_neq.
Qed.

Lemma identical_drive_unequal3_witness :
  let s0 := AgentSelector3.mk scenario_order 0 [1; 2] 3 0 None [] in
  let cs := [AgentSelector3.Reset; AgentSelector3.Next false [1; 0]] in
  AgentSelector3.__init__ scenario_order = Ok s0
  /\ 0%nat <> 1%nat
  /\ Object.py_eq
       {| Object.ident := 0; Object.inst := Object.OfAgentSelector3 (AgentSelector3.run cs s0) |}
       {| Object.ident := 1; Object.inst := Object.OfAgentSelector3 (AgentSelector3.run cs s0) |}
     = false.
Proof.
  intros s0 cs.
  assert (Hi : AgentSelector3.__init__ scenario_order = Ok s0) by (vm_compute; reflexivity).
  assert (Hne : 0%nat <> 1%nat) by discriminate.
  exact (conj Hi (conj Hne (identical_drive_unequal3 scenario_order s0 cs 0 1 Hi Hne))).
Defined.

(** ** The coordination flag *)

(** C10. [coordination_act] is inert in [AgentSelector2.next]: two calls that
    differ in that argument only return the same identifier and leave the
    same attributes. *)
Theorem coordination_act_inert (s : AgentSelector2.t) (manager_act c1 c2 : bool)
        (active_agents : list string) :
  AgentSelector2.next manager_act c1 active_agents s
  = AgentSelector2.next manager_act c2 active_agents s.
Proof. reflexivity. Qed.

(** ** Construction *)

(** The claim C6 fails: the fixed-order selector takes an empty order at
    [reinit] and raises only at the following [next]; an order with a
    duplicate is taken by the hierarchical selector. *)
Lemma construction_errors_counterexample :
  AgentSelector.reinit [] (AgentSelector.__init__ [VStr "player1"])
  = (Ok tt, AgentSelector.__init__ [])
  /\ AgentSelector.next (AgentSelector.__init__ [])
     = (Raise ZeroDivisionError, AgentSelector.__init__ [])
  /\ AgentSelector2.__init__ ["manager"; "manager"; "coordination"]
     = Ok (AgentSelector2.mk ["manager"; "manager"; "coordination"] 0 [] 2 0 None).
Proof. repeat split; vm_compute; reflexivity. Qed.

(** C6, amended. An order without ["manager"] or without ["coordination"],
    the empty order among them, makes the constructors and [reinit] of the
    hierarchical and dynamic selectors raise [ValueError] at once.  Nothing
    else is checked: an order that holds both names is accepted whatever else
    it holds, and the fixed-order selector accepts every order, the empty one
    included, on which [next] then raises [ZeroDivisionError]. *)
Theorem construction_errors (order : list string) (vorder : list value) :
  ((~ In "manager" order \/ ~ In "coordination" order) ->
   AgentSelector2.__init__ order = Raise ValueError
   /\ AgentSelector3.__init__ order = Raise ValueError
   /\ (forall s, fst (AgentSelector2.reinit order s) = Raise ValueError)
   /\ (forall s, fst (AgentSelector3.reinit order s) = Raise ValueError))
  /\ (In "manager" order -> In "coordination" order ->
      (exists s2, AgentSelector2.__init__ order = Ok s2)
      /\ (exists s3, AgentSelector3.__init__ order = Ok s3)
      /\ (forall s, fst (AgentSelector2.reinit order s) = Ok tt)
      /\ (forall s, fst (AgentSelector3.reinit order s) = Ok tt))
  /\ (forall s, AgentSelector.reinit vorder s = (Ok tt, AgentSelector.__init__ vorder))
  /\ (vorder = [] ->
      fst (AgentSelector.next (AgentSelector.__init__ vorder)) = Raise ZeroDivisionError).
Proof.
  split; [| split; [| split]].
  - intros Hmiss.
    unfold AgentSelector2.__init__, AgentSelector3.__init__,
      AgentSelector2.reinit, AgentSelector3.reinit, bind, lift,
      AgentSelector2.set_agent_order, AgentSelector3.set_agent_order, modify.
    destruct Hmiss as [Hm | Hc].
    + rewrite (index_str_missing _ _ Hm). repeat split.
    + rewrite (index_str_missing _ _ Hc).
      destruct (index String.eqb "manager" order) as [mi | e] eqn:Em.
      * repeat split.
      * apply index_raises in Em. subst e. repeat split.
  - intros Hm Hc.
    destruct (index_str_found _ _ Hm) as (mi & Emi).
    destruct (index_str_found _ _ Hc) as (ci & Eci).
    unfold AgentSelector2.__init__, AgentSelector3.__init__,
      AgentSelector2.reinit, AgentSelector3.reinit, bind, lift,
      AgentSelector2.set_agent_order, AgentSelector3.set_agent_order, modify.
    rewrite Emi, Eci. repeat split; eexists; reflexivity.
  - intros s. apply reinit_is_init.
  - intros ->. reflexivity.
Qed.

Lemma construction_errors_witness :
  (~ In "manager" ["workstation_0"; "coordination"]
   \/ ~ In "coordination" ["workstation_0"; "coordination"])
  /\ AgentSelector2.__init__ ["workstation_0"; "coordination"] = Raise ValueError
  /\ AgentSelector3.__init__ ["workstation_0"; "coordination"] = Raise ValueError.
Proof.
  assert (H : ~ In "manager" ["workstation_0"; "coordination"]
              \/ ~ In "coordination" ["workstation_0"; "coordination"]).
  { left. simpl. intros [E | [E | []]]; discriminate. }
  destruct (proj1 (construction_errors ["workstation_0"; "coordination"] []) H)
    as (H2 & H3 & _).
  exact (conj H (conj H2 H3)).
Defined.

(** ** The stored position *)

Section PositionFacts.

Lemma reachable_position1 :
  forall s : AgentSelector.t,
  AgentSelector.reachable s ->
  0 <= AgentSelector._current_agent s
  /\ (AgentSelector.agent_order s <> [] ->
      AgentSelector._current_agent s < len (AgentSelector.agent_order s)).
Proof.
  assert (Hinit : forall order,
             0 <= AgentSelector._current_agent (AgentSelector.__init__ order)
             /\ (AgentSelector.agent_order (AgentSelector.__init__ order) <> [] ->
                 AgentSelector._current_agent (AgentSelector.__init__ order)
                 < len (AgentSelector.agent_order (AgentSelector.__init__ order)))).
  { intros order. simpl. split; [lia |].
    destruct order; [congruence | rewrite len_cons; pose proof (len_nonneg order); lia]. }
  assert (Hnext : forall s r s',
             0 <= AgentSelector._current_agent s
             /\ (AgentSelector.agent_order s <> [] ->
                 AgentSelector._current_agent s < len (AgentSelector.agent_order s)) ->
             AgentSelector.next s = (Ok r, s') ->
             0 <= AgentSelector._current_agent s'
             /\ (AgentSelector.agent_order s' <> [] ->
                 AgentSelector._current_agent s' < len (AgentSelector.agent_order s'))).
  { intros s r s' (H0 & Hlt) Hn.
    destruct (AgentSelector.agent_order s) as [| a l] eqn:Eo.
    - rewrite (next_empty s Eo) in Hn. discriminate.
    - assert (Hc : 0 <= AgentSelector._current_agent s
                   < len (AgentSelector.agent_order s))
        by (rewrite Eo; split; [exact H0 | apply Hlt; discriminate]).
      rewrite (next_step s Hc) in Hn. injection Hn as _ <-. simpl.
      assert (Hpos : 0 < len (AgentSelector.agent_order s)) by lia.
      pose proof (Z.mod_pos_bound (AgentSelector._current_agent s + 1) _ Hpos).
      split; [lia | intros _; lia]. }
  induction 1 as [order | s c r s' _ IH Hc].
  - apply Hinit.
  - destruct c as [order | |]; simpl in Hc.
    + unfold bind at 1 in Hc. rewrite reinit_is_init in Hc.
      unfold ret in Hc. injection Hc as _ <-. apply Hinit.
    + unfold AgentSelector.reset, bind at 1 2, get in Hc.
      rewrite reinit_is_init in Hc.
      exact (Hnext _ _ _ (Hinit _) Hc).
    + exact (Hnext _ _ _ IH Hc).
Qed.

Lemma agents_in_cycle_nonempty (s s' : AgentSelector3.t) (act cycle : list Z) :
  AgentSelector3.agents_in_cycle act s = (Ok cycle, s') -> cycle <> [].
Proof.
  unfold AgentSelector3.agents_in_cycle, bind, get, lift, ret.
  destruct (AgentSelector3.active_from 0 (AgentSelector3.workstation_indices s) act)
    as [[| x l] | e]; intros H; try discriminate; injection H as <- _.
  - intros E. apply app_eq_nil in E. destruct E as [_ E]. discriminate.
  - discriminate.
Qed.

End PositionFacts.

(** The claim C7 fails: in the hierarchical selector on
    [manager, workstation_0, coordination], four non-manager calls leave the
    stored position at 4, outside the sub-cycle of length 2 and outside the
    order of length 3. *)
Lemma position_bound_counterexample :
  exists s,
    AgentSelector2.reachable s
    /\ AgentSelector2._current_index s = 4
    /\ len (Hierarchical.sub_cycle s) = 2
    /\ len (AgentSelector2.agent_order s) = 3
    /\ ~ (0 <= AgentSelector2._current_index s < len (Hierarchical.sub_cycle s))
    /\ ~ (0 <= AgentSelector2._current_index s < len (AgentSelector2.agent_order s)).
Proof.
  set (order := ["manager"; "workstation_0"; "coordination"]).
  set (st := fun cur sel => AgentSelector2.mk order 0 [1] 2 cur sel).
  exists (st 4 (Some "coordination")).
  split.
  - apply (AgentSelector2.reach_call (st 3 (Some "workstation_0"))
             (AgentSelector2.Next false false []) (Some "coordination"));
      [| vm_compute; reflexivity].
    apply (AgentSelector2.reach_call (st 2 (Some "coordination"))
             (AgentSelector2.Next false false []) (Some "workstation_0"));
      [| vm_compute; reflexivity].
    apply (AgentSelector2.reach_call (st 1 (Some "workstation_0"))
             (AgentSelector2.Next false false []) (Some "coordination"));
      [| vm_compute; reflexivity].
    apply (AgentSelector2.reach_call (st 0 None)
             (AgentSelector2.Next false false []) (Some "workstation_0"));
      [| vm_compute; reflexivity].
    apply (AgentSelector2.reach_init order). vm_compute. reflexivity.
  - vm_compute. repeat split; try reflexivity; intros [_ H]; discriminate.
Qed.

(** ** The activity vector *)

Lemma agents_in_cycle_firstn (s : AgentSelector3.t) (act : list Z) (n : nat) :
  len (AgentSelector3.workstation_indices s) <= Z.of_nat n ->
  AgentSelector3.agents_in_cycle (firstn n act) s = AgentSelector3.agents_in_cycle act s.
Proof.
  intros Hn. unfold AgentSelector3.agents_in_cycle, bind at 1 3, get.
  unfold bind at 1 3, lift.
  now rewrite active_from_firstn by lia.
Qed.

(** The claim C9 fails: three flags for two workstations are accepted. *)
Lemma activity_vector_length_counterexample :
  let s := AgentSelector3.mk scenario_order 0 [1; 2] 3 0 (Some "manager") [] in
  AgentSelector3.reachable s
  /\ len (AgentSelector3.workstation_indices s) = 2
  /\ len [1; 0; 1] = 3
  /\ AgentSelector3.next false [1; 0; 1] s
     = (Ok (Some "workstation_0"),
        AgentSelector3.mk scenario_order 0 [1; 2] 3 1 (Some "workstation_0") [1; 3]).
Proof.
  intros s. split; [| repeat split; vm_compute; reflexivity].
  apply (AgentSelector3.reach_call
           (AgentSelector3.mk scenario_order 0 [1; 2] 3 0 None [])
           AgentSelector3.Reset (Some "manager")); [| vm_compute; reflexivity].
  apply (AgentSelector3.reach_init scenario_order). vm_compute. reflexivity.
Qed.

(** C9, amended. On a non-manager call of the dynamic selector, a vector
    shorter than the workstation list raises [IndexError] at once and leaves
    the attributes untouched.  A longer vector is accepted: the call selects
    an agent, exactly as with the vector cut to the workstation count. *)
Theorem activity_vector_length (s : AgentSelector3.t) (act : list Z) :
  Dynamic.wf s ->
  (len act < len (AgentSelector3.workstation_indices s) ->
   AgentSelector3.next false act s = (Raise IndexError, s))
  /\ (len (AgentSelector3.workstation_indices s) <= len act ->
      (exists a s', AgentSelector3.next false act s = (Ok (Some a), s'))
      /\ AgentSelector3.next false act s
         = AgentSelector3.next false
             (firstn (List.length (AgentSelector3.workstation_indices s)) act) s).
Proof.
  intros Hwf. split.
  - apply next_short3.
  - intros Hlen. split.
    + destruct (next_cycle3 s act Hwf Hlen) as (cycle & s1 & a & _ & _ & _ & _ & _ & Hn).
      eexists _, _. exact Hn.
    + unfold AgentSelector3.next, bind.
      rewrite agents_in_cycle_firstn by (unfold len; lia). reflexivity.
Qed.

Lemma activity_vector_length_witness :
  let s := AgentSelector3.mk scenario_order 0 [1; 2] 3 0 (Some "manager") [] in
  Dynamic.wf s
  /\ len [1] < len (AgentSelector3.workstation_indices s)
  /\ AgentSelector3.next false [1] s = (Raise IndexError, s).
Proof.
  intros s.
  assert (Hwf : Dynamic.wf s) by (vm_compute; repeat split).
  assert (Hlt : len [1] < len (AgentSelector3.workstation_indices s))
    by (vm_compute; reflexivity).
  exact (conj Hwf (conj Hlt (proj1 (activity_vector_length s [1] Hwf) Hlt))).
Defined.

(** ** First and last *)

Lemma value_eqb_eq (a b : value) : value_eqb a b = true -> a = b.
Proof.
  destruct a, b; simpl; try discriminate; try reflexivity.
  - intros H. apply Z.eqb_eq in H. now subst.
  - intros H. apply String.eqb_eq in H. now subst.
Qed.

Section FirstLastFacts.

(** A [next] that returns leaves the order alone and stores what it
    returns. *)
Lemma next_result1 (s s' : AgentSelector.t) (a : value) :
  AgentSelector.next s = (Ok a, s') ->
  AgentSelector.agent_order s' = AgentSelector.agent_order s
  /\ AgentSelector.selected_agent s' = a.
Proof.
  unfold AgentSelector.next, bind, get, lift, AgentSelector.set_current_agent,
    AgentSelector.set_selected_agent, modify. simpl.
  destruct (mod_ _ _) as [c |]; [| discriminate]. simpl.
  destruct (getitem _ _) as [b |]; [| discriminate].
  intros H. injection H as <- <-. split; reflexivity.
Qed.

Lemma is_last_spec1 (s : AgentSelector.t) (a : value) :
  getitem (AgentSelector.agent_order s) (-1) = Ok a ->
  AgentSelector.is_last s = (Ok (value_eqb (AgentSelector.selected_agent s) a), s).
Proof.
  intros H. unfold AgentSelector.is_last, bind, get, lift, ret. now rewrite H.
Qed.

Lemma is_first_spec1 (s : AgentSelector.t) (a : value) :
  getitem (AgentSelector.agent_order s) 0 = Ok a ->
  AgentSelector.is_first s = (Ok (value_eqb (AgentSelector.selected_agent s) a), s).
Proof.
  intros H. unfold AgentSelector.is_first, bind, get, lift, ret. now rewrite H.
Qed.

(** With more than one identifier and no duplicate, the first and the last
    element of the order differ, so the two queries exclude each other. *)
Lemma first_last_exclusive1 (s : AgentSelector.t) :
  NoDup (AgentSelector.agent_order s) ->
  1 < len (AgentSelector.agent_order s) ->
  ~ (fst (AgentSelector.is_first s) = Ok true
     /\ fst (AgentSelector.is_last s) = Ok true).
Proof.
  intros Hnd Hlen [Hf Hl].
  assert (H0 : 0 <= 0 < len (AgentSelector.agent_order s)) by lia.
  assert (H1 : - len (AgentSelector.agent_order s) <= -1 < 0) by lia.
  pose proof (getitem_ok VNone _ 0 H0) as G0.
  pose proof (getitem_neg VNone _ (-1) H1) as G1.
  change (Z.to_nat 0) with 0%nat in G0.
  replace (Z.to_nat (-1 + len (AgentSelector.agent_order s)))
    with (List.length (AgentSelector.agent_order s) - 1)%nat in G1
    by (unfold len; lia).
  remember (nth 0 (AgentSelector.agent_order s) VNone) as a0 eqn:E0.
  remember (nth (List.length (AgentSelector.agent_order s) - 1)
                (AgentSelector.agent_order s) VNone) as aN eqn:EN.
  rewrite (is_first_spec1 s _ G0) in Hf.
  rewrite (is_last_spec1 s _ G1) in Hl.
  cbn [fst] in Hf, Hl.
  injection Hf as Hf. injection Hl as Hl.
  apply value_eqb_eq in Hf. apply value_eqb_eq in Hl.
  rewrite Hf, E0, EN in Hl.
  apply (proj1 (NoDup_nth _ VNone) Hnd) in Hl; unfold len in *; lia.
Qed.

Lemma queries2 (s : AgentSelector2.t) :
  Hierarchical.wf s ->
  AgentSelector2.is_first s
  = (Ok (opt_str_eqb (AgentSelector2.selected_agent s) (Some "manager")), s)
  /\ AgentSelector2.is_last s
     = (Ok (opt_str_eqb (AgentSelector2.selected_agent s) (Some "coordination")), s).
Proof.
  intros (Hr & _).
  unfold AgentSelector2.is_first, AgentSelector2.is_last, bind, get, lift, ret.
  now rewrite (roles_manager _ _ _ _ Hr), (roles_coordination _ _ _ _ Hr).
Qed.

Lemma next_result2 (s s' : AgentSelector2.t) (m c : bool) (act : list string)
      (r : option string) :
  Hierarchical.wf s ->
  AgentSelector2.next m c act s = (Ok r, s') ->
  AgentSelector2.selected_agent s' = r.
Proof.
  intros Hwf H. destruct (Hierarchical.manager_call m act) eqn:Hm.
  - unfold Hierarchical.manager_call in Hm. apply andb_prop in Hm.
    destruct Hm as [-> Hact].
    rewrite (next_manager2 s c act Hwf Hact) in H. now injection H as <- <-.
  - destruct (next_cycle2 s m c act Hwf Hm) as (a & _ & Hn).
    rewrite Hn in H. now injection H as <- <-.
Qed.

Lemma next_result3 (s s' : AgentSelector3.t) (m : bool) (act : list Z)
      (r : option string) :
  Dynamic.wf s ->
  AgentSelector3.next m act s = (Ok r, s') ->
  AgentSelector3.selected_agent s' = r.
Proof.
  intros Hwf H. destruct m.
  - rewrite (next_manager3 s act Hwf) in H. now injection H as <- <-.
  - destruct (Z.lt_ge_cases (len act) (len (AgentSelector3.workstation_indices s)))
      as [Hlt | Hge].
    + rewrite (next_short3 s act Hlt) in H. discriminate.
    + destruct (next_cycle3 s act Hwf Hge)
        as (cycle & s1 & a & _ & _ & _ & _ & _ & Hn).
      rewrite Hn in H. now injection H as <- <-.
Qed.

(** The last element of an eligible cycle is the coordination agent, except
    in the fallback cycle, which ends with the manager. *)
Lemma last_of_cycle3 (s : AgentSelector3.t) (act cycle : list Z) :
  Dynamic.wf s ->
  AgentSelector3.agents_in_cycle act s = (Ok cycle, s) ->
  (cycle <> (AgentSelector3.workstation_indices s
               ++ [AgentSelector3.coordination_index s])
            ++ [AgentSelector3.manager_index s]
   /\ getitem (AgentSelector3.agent_order s) (last cycle 0) = Ok "coordination")
  \/ (cycle = (AgentSelector3.workstation_indices s
                 ++ [AgentSelector3.coordination_index s])
              ++ [AgentSelector3.manager_index s]
      /\ getitem (AgentSelector3.agent_order s) (last cycle 0) = Ok "manager").
Proof.
  intros Hr. unfold AgentSelector3.agents_in_cycle, bind, get, lift, ret.
  destruct (AgentSelector3.active_from 0 (AgentSelector3.workstation_indices s) act)
    as [[| x l] | e]; intros H; try discriminate; injection H as <-.
  - right. split; [reflexivity |].
    rewrite last_last. exact (roles_manager _ _ _ _ Hr).
  - left. split.
    + intros E. apply (f_equal (fun l => last l 0)) in E.
      change (x :: l ++ [AgentSelector3.coordination_index s])
        with ((x :: l) ++ [AgentSelector3.coordination_index s]) in E.
      rewrite !last_last in E.
      pose proof (roles_manager _ _ _ _ Hr) as Hm.
      pose proof (roles_coordination _ _ _ _ Hr) as Hc.
      rewrite E in Hc. congruence.
    + change (x :: l ++ [AgentSelector3.coordination_index s])
        with ((x :: l) ++ [AgentSelector3.coordination_index s]).
      rewrite last_last. exact (roles_coordination _ _ _ _ Hr).
Qed.

End FirstLastFacts.

(** What [AgentSelector2.reset] leaves behind: it returns the manager without
    storing it, so on a new selector [is_first()] answers [False] right after
    [reset()]. *)
Lemma hierarchical_reset_keeps_selection :
  exists s0 s1,
    AgentSelector2.__init__ scenario_order = Ok s0
    /\ AgentSelector2.reset s0 = (Ok "manager", s1)
    /\ AgentSelector2.selected_agent s1 = None
    /\ AgentSelector2.is_first s1 = (Ok false, s1).
Proof.
  exists (AgentSelector2.mk scenario_order 0 [1; 2] 3 0 None).
  exists (AgentSelector2.mk scenario_order 0 [1; 2] 3 0 None).
  repeat split; vm_compute; reflexivity.
Qed.

(** The claim C8 fails in the dynamic selector: on [manager, coordination]
    with no workstation the fallback cycle is [coordination, manager]; the call
    that returns its last element, the manager, is followed by
    [is_last() = False]. *)
Lemma first_last_counterexample :
  let s := AgentSelector3.mk ["manager"; "coordination"] 0 [] 1 1
             (Some "coordination") [1; 0] in
  let s' := AgentSelector3.mk ["manager"; "coordination"] 0 [] 1 2
              (Some "manager") [1; 0] in
  AgentSelector3.reachable s
  /\ AgentSelector3.agents_in_cycle [] s = (Ok [1; 0], s)
  /\ getitem (AgentSelector3.agent_order s) (last [1; 0] 0) = Ok "manager"
  /\ AgentSelector3.next false [] s = (Ok (Some "manager"), s')
  /\ AgentSelector3.is_last s' = (Ok false, s').
Proof.
  intros s s'. split; [| repeat split; vm_compute; reflexivity].
  apply (AgentSelector3.reach_call
           (AgentSelector3.mk ["manager"; "coordination"] 0 [] 1 0 (Some "manager") [])
           (AgentSelector3.Next false []) (Some "coordination"));
    [| vm_compute; reflexivity].
  apply (AgentSelector3.reach_call
           (AgentSelector3.mk ["manager"; "coordination"] 0 [] 1 0 None [])
           AgentSelector3.Reset (Some "manager")); [| vm_compute; reflexivity].
  apply (AgentSelector3.reach_init ["manager"; "coordination"]). vm_compute. reflexivity.
Qed.

(** C8, amended. Fixed-order selector, on a non-empty order: [is_first()]
    holds right after [reset()], [is_last()] holds right after the [next()]
    that returns the last element of the order, and with more than one
    identifier and no duplicate the two never hold together.  Hierarchical
    selector: the sub-cycle ends with the coordination agent, and after a
    [next] [is_last()] tells whether that call returned ["coordination"].
    Dynamic selector: [is_first()] holds right after [reset()]; after a [next]
    [is_last()] tells whether that call returned ["coordination"], which is
    the last element of every eligible cycle but the fallback one, whose last
    element is the manager.  In both role-aware selectors the two queries
    never hold together. *)
Theorem first_last_consistency (s1 : AgentSelector.t) (s2 : AgentSelector2.t)
        (s3 : AgentSelector3.t) :
  AgentSelector.agent_order s1 <> [] ->
  Hierarchical.wf s2 ->
  Dynamic.wf s3 ->
  ((exists a s1',
       AgentSelector.reset s1 = (Ok a, s1')
       /\ getitem (AgentSelector.agent_order s1) 0 = Ok a
       /\ AgentSelector.is_first s1' = (Ok true, s1'))
   /\ (forall a s1',
          AgentSelector.next s1 = (Ok a, s1') ->
          getitem (AgentSelector.agent_order s1) (-1) = Ok a ->
          AgentSelector.is_last s1' = (Ok true, s1'))
   /\ (NoDup (AgentSelector.agent_order s1) ->
       1 < len (AgentSelector.agent_order s1) ->
       ~ (fst (AgentSelector.is_first s1) = Ok true
          /\ fst (AgentSelector.is_last s1) = Ok true)))
  /\ (getitem (AgentSelector2.agent_order s2) (last (Hierarchical.sub_cycle s2) 0)
      = Ok "coordination"
      /\ (forall m c act r s2',
             AgentSelector2.next m c act s2 = (Ok r, s2') ->
             AgentSelector2.is_last s2'
             = (Ok (opt_str_eqb r (Some "coordination")), s2'))
      /\ ~ (fst (AgentSelector2.is_first s2) = Ok true
            /\ fst (AgentSelector2.is_last s2) = Ok true))
  /\ ((exists s3',
         AgentSelector3.reset s3 = (Ok (Some "manager"), s3')
         /\ AgentSelector3.is_first s3' = (Ok true, s3'))
      /\ (forall m act r s3',
             AgentSelector3.next m act s3 = (Ok r, s3') ->
             AgentSelector3.is_last s3'
             = (Ok (opt_str_eqb r (Some "coordination")), s3'))
      /\ (forall act cycle,
             AgentSelector3.agents_in_cycle act s3 = (Ok cycle, s3) ->
             cycle <> (AgentSelector3.workstation_indices s3
                         ++ [AgentSelector3.coordination_index s3])
                      ++ [AgentSelector3.manager_index s3] ->
             getitem (AgentSelector3.agent_order s3) (last cycle 0) = Ok "coordination")
      /\ ~ (fst (AgentSelector3.is_first s3) = Ok true
            /\ fst (AgentSelector3.is_last s3) = Ok true)).
Proof.
  intros Hne Hwf2 Hwf3. split; [| split].
  - assert (Hpos : 0 < len (AgentSelector.agent_order s1)).
    { destruct (AgentSelector.agent_order s1) as [| a l]; [congruence |].
      rewrite len_cons. pose proof (len_nonneg l). lia. }
    split; [| split].
    + assert (H0 : 0 <= 0 < len (AgentSelector.agent_order s1)) by lia.
      pose proof (getitem_ok VNone _ 0 H0) as G0.
      change (Z.to_nat 0) with 0%nat in G0.
      set (a := nth 0 (AgentSelector.agent_order s1) VNone) in *.
      set (s1' := AgentSelector.mk (AgentSelector.agent_order s1)
                    (1 mod len (AgentSelector.agent_order s1)) a).
      exists a, s1'.
      split; [| split; [exact G0 |]].
      * unfold AgentSelector.reset, bind at 1 2, get.
        rewrite reinit_is_init, next_step by (simpl; lia). reflexivity.
      * rewrite (is_first_spec1 s1' a G0). simpl. now rewrite value_eqb_refl.
    + intros a s1' Hn Hlast.
      destruct (next_result1 _ _ _ Hn) as (Ho & Hs).
      rewrite <- Ho in Hlast.
      rewrite (is_last_spec1 _ _ Hlast), Hs. now rewrite value_eqb_refl.
    + apply first_last_exclusive1.
  - split; [| split].
    + unfold Hierarchical.sub_cycle. rewrite last_last.
      exact (roles_coordination _ _ _ _ (proj1 Hwf2)).
    + intros m c act r s2' Hn.
      pose proof (next_wf2 _ _ _ _ _ _ Hwf2 Hn) as Hwf'.
      rewrite (proj2 (queries2 s2' Hwf')).
      now rewrite (next_result2 _ _ _ _ _ _ Hwf2 Hn).
    + intros [Hf Hl].
      rewrite (proj1 (queries2 s2 Hwf2)) in Hf.
      rewrite (proj2 (queries2 s2 Hwf2)) in Hl.
      cbn [fst] in Hf, Hl. injection Hf as Hf. injection Hl as Hl.
      apply opt_str_eqb_eq in Hf. apply opt_str_eqb_eq in Hl.
      rewrite Hf in Hl. discriminate.
  - split; [| split; [| split]].
    + eexists. split; [exact (reset_spec3 s3 Hwf3) | reflexivity].
    + intros m act r s3' Hn.
      unfold AgentSelector3.is_last, bind, get, ret.
      now rewrite (next_result3 _ _ _ _ _ Hwf3 Hn).
    + intros act cycle Hcyc Hnf.
      destruct (last_of_cycle3 s3 act cycle Hwf3 Hcyc) as [(_ & H) | (E & _)];
        [exact H | contradiction].
    + intros [Hf Hl].
      unfold AgentSelector3.is_first, AgentSelector3.is_last, bind, get, ret in Hf, Hl.
      cbn [fst] in Hf, Hl. injection Hf as Hf. injection Hl as Hl.
      apply opt_str_eqb_eq in Hf. apply opt_str_eqb_eq in Hl.
      rewrite Hf in Hl. discriminate.
Qed.

Lemma first_last_consistency_witness :
  let s1 := AgentSelector.__init__ [VStr "player1"; VStr "player2"] in
  let s2 := AgentSelector2.mk scenario_order 0 [1; 2] 3 0 None in
  let s3 := AgentSelector3.mk scenario_order 0 [1; 2] 3 0 None [] in
  AgentSelector.agent_order s1 <> []
  /\ Hierarchical.wf s2
  /\ Dynamic.wf s3
  /\ (exists a s1',
         AgentSelector.reset s1 = (Ok a, s1')
         /\ getitem (AgentSelector.agent_order s1) 0 = Ok a
         /\ AgentSelector.is_first s1' = (Ok true, s1'))
  /\ (exists s3',
         AgentSelector3.reset s3 = (Ok (Some "manager"), s3')
         /\ AgentSelector3.is_first s3' = (Ok true, s3')).
Proof.
  intros s1 s2 s3.
  assert (Hne : AgentSelector.agent_order s1 <> []) by discriminate.
  assert (Hwf2 : Hierarchical.wf s2) by (vm_compute; repeat split; discriminate).
  assert (Hwf3 : Dynamic.wf s3) by (vm_compute; repeat split).
  destruct (first_last_consistency s1 s2 s3 Hne Hwf2 Hwf3)
    as ((P1 & _) & _ & (P3 & _)).
  exact (conj Hne (conj Hwf2 (conj Hwf3 (conj P1 P3)))).
Defined.

(** * Further properties of the selectors *)

(** ** Role indices of a constructed selector *)

Lemma getitem_In {A : Type} (l : list A) (i : Z) (a : A) :
  getitem l i = Ok a -> In a l.
Proof.
  unfold getitem.
  destruct (_ <? 0); [discriminate |].
  destruct (nth_error l _) as [b |] eqn:E; [| discriminate].
  intros H. injection H as <-. exact (nth_error_In _ _ E).
Qed.

Lemma getitem_nonneg_inv {A : Type} (l : list A) (i : Z) (a : A) :
  0 <= i -> getitem l i = Ok a -> nth_error l (Z.to_nat i) = Some a.
Proof.
  intros Hi. unfold getitem.
  destruct (Z.ltb_spec i 0) as [Hneg | _]; [lia |].
  destruct (Z.ltb_spec i 0) as [Hneg | _]; [lia |].
  destruct (nth_error l (Z.to_nat i)); congruence.
Qed.

(** [index] answers the first position that compares equal. *)
Lemma index_from_first {A : Type} (eqb : A -> A -> bool) (x : A) (l : list A) :
  forall k i,
    index_from eqb x l k = Ok i ->
    forall j b, k <= j < i -> nth_error l (Z.to_nat (j - k)) = Some b -> eqb b x = false.
Proof.
  induction l as [| a l IH]; intros k i H j b Hj Hn; simpl in H; [discriminate |].
  destruct (eqb a x) eqn:E.
  - injection H as <-. lia.
  - destruct (Z.eq_dec j k) as [-> | Hne].
    + rewrite Z.sub_diag in Hn. simpl in Hn. congruence.
    + apply (IH (k + 1) i H j b); [lia |].
      replace (Z.to_nat (j - k)) with (Datatypes.S (Z.to_nat (j - (k + 1)))) in Hn by lia.
      exact Hn.
Qed.

Lemma enumerate_from_In {A : Type} (l : list A) :
  forall k i a,
    In (i, a) (enumerate_from k l)
    <-> k <= i /\ nth_error l (Z.to_nat (i - k)) = Some a.
Proof.
  induction l as [| b l IH]; intros k i a; simpl.
  - split; [contradiction |]. intros [_ H]. destruct (Z.to_nat (i - k)); discriminate.
  - rewrite IH. split.
    + intros [H | [Hle Hn]].
      * injection H as <- <-. rewrite Z.sub_diag. split; [lia | reflexivity].
      * split; [lia |].
        replace (Z.to_nat (i - k)) with (Datatypes.S (Z.to_nat (i - (k + 1)))) by lia.
        exact Hn.
    + intros [Hle Hn]. destruct (Z.eq_dec i k) as [-> | Hne].
      * rewrite Z.sub_diag in Hn. simpl in Hn. left. congruence.
      * right. split; [lia |].
        replace (Z.to_nat (i - k)) with (Datatypes.S (Z.to_nat (i - (k + 1)))) in Hn by lia.
        exact Hn.
Qed.

Lemma workstations_of_In (order : list string) (i : Z) :
  In i (workstations_of order)
  <-> 0 <= i /\ exists a, getitem order i = Ok a /\ startswith a "workstation" = true.
Proof.
  unfold workstations_of, enumerate. rewrite in_map_iff. split.
  - intros ([j a] & <- & H). apply filter_In in H. destruct H as [H Hs].
    apply enumerate_from_In in H. destruct H as [Hj Hn]. simpl in *.
    rewrite Z.sub_0_r in Hn. split; [exact Hj |].
    exists a. split; [now apply getitem_nth_error | exact Hs].
  - intros (Hi & a & Hg & Hs). exists (i, a). split; [reflexivity |].
    apply filter_In. split; [| exact Hs].
    apply enumerate_from_In. split; [exact Hi |].
    rewrite Z.sub_0_r. now apply getitem_nonneg_inv.
Qed.

Lemma enumerate_filter_sorted {A : Type} (f : Z * A -> bool) (l : list A) :
  forall k, StronglySorted Z.lt (map fst (filter f (enumerate_from k l))).
Proof.
  induction l as [| a l IH]; intros k; simpl; [constructor |].
  destruct (f (k, a)); simpl; [| apply IH].
  constructor; [apply IH |].
  apply Forall_forall. intros i Hi.
  apply in_map_iff in Hi. destruct Hi as ([j b] & <- & Hin).
  apply filter_In in Hin. destruct Hin as [Hin _].
  apply enumerate_from_range in Hin. simpl. lia.
Qed.

(** What [roles_of] says about the three role attributes. *)
Lemma roles_of_characterised (order : list string) (mi : Z) (ws : list Z) (ci : Z) :
  roles_of order mi ws ci ->
  (getitem order mi = Ok "manager"
   /\ forall j b, 0 <= j < mi -> getitem order j = Ok b -> b <> "manager")
  /\ (getitem order ci = Ok "coordination"
      /\ forall j b, 0 <= j < ci -> getitem order j = Ok b -> b <> "coordination")
  /\ (forall i,
         In i ws
         <-> 0 <= i
             /\ exists a, getitem order i = Ok a /\ startswith a "workstation" = true)
  /\ StronglySorted Z.lt ws
  /\ ~ In mi ws
  /\ ~ In ci ws.
Proof.
  intros Hr. pose proof Hr as (Hm & -> & Hc).
  assert (Hfirst : forall name i,
             index String.eqb name order = Ok i ->
             forall j b, 0 <= j < i -> getitem order j = Ok b -> b <> name).
  { intros name i Hi j b Hj Hg. apply String.eqb_neq.
    apply (index_from_first _ _ _ _ _ Hi j b Hj).
    rewrite Z.sub_0_r. apply getitem_nonneg_inv; [lia | exact Hg]. }
  split; [split; [exact (roles_manager _ _ _ _ Hr) | exact (Hfirst _ _ Hm)] |].
  split; [split; [exact (roles_coordination _ _ _ _ Hr) | exact (Hfirst _ _ Hc)] |].
  split; [exact (workstations_of_In order) |].
  split; [apply enumerate_filter_sorted |].
  split.
  - intros Hin. apply workstations_of_In in Hin. destruct Hin as (_ & a & Ha & Hs).
    rewrite (roles_manager _ _ _ _ Hr) in Ha. injection Ha as <-. discriminate.
  - intros Hin. apply workstations_of_In in Hin. destruct Hin as (_ & a & Ha & Hs).
    rewrite (roles_coordination _ _ _ _ Hr) in Ha. injection Ha as <-. discriminate.
Qed.

(** X1. A constructed hierarchical selector holds the role indices of its
    order: [manager_index] and [coordination_index] are the first positions of
    ["manager"] and ["coordination"]; [workstation_indices] lists, in
    increasing order, exactly the positions whose identifier starts with
    ["workstation"], and holds neither of the two other indices. *)
Theorem constructed_role_indices2 (order : list string) (s : AgentSelector2.t) :
  AgentSelector2.__init__ order = Ok s ->
  AgentSelector2.agent_order s = order
  /\ (getitem order (AgentSelector2.manager_index s) = Ok "manager"
      /\ forall j b,
           0 <= j < AgentSelector2.manager_index s ->
           getitem order j = Ok b -> b <> "manager")
  /\ (getitem order (AgentSelector2.coordination_index s) = Ok "coordination"
      /\ forall j b,
           0 <= j < AgentSelector2.coordination_index s ->
           getitem order j = Ok b -> b <> "coordination")
  /\ (forall i,
         In i (AgentSelector2.workstation_indices s)
         <-> 0 <= i
             /\ exists a, getitem order i = Ok a /\ startswith a "workstation" = true)
  /\ StronglySorted Z.lt (AgentSelector2.workstation_indices s)
  /\ ~ In (AgentSelector2.manager_index s) (AgentSelector2.workstation_indices s)
  /\ ~ In (AgentSelector2.coordination_index s) (AgentSelector2.workstation_indices s).
Proof.
  intros Hi.
  assert (Ho : AgentSelector2.agent_order s = order).
  { unfold AgentSelector2.__init__ in Hi.
    destruct (index String.eqb "manager" order); [| discriminate].
    destruct (index String.eqb "coordination" order); [| discriminate].
    now injection Hi as <-. }
  split; [exact Ho |].
  pose proof (proj1 (init_wf2 order s Hi)) as Hr. rewrite Ho in Hr.
  exact (roles_of_characterised _ _ _ _ Hr).
Qed.

Lemma constructed_role_indices2_witness :
  let order := ["workstation_a"; "manager"; "coordination"; "manager"; "workstation_b"] in
  let s := AgentSelector2.mk order 1 [0; 4] 2 0 None in
  AgentSelector2.__init__ order = Ok s
  /\ getitem order (AgentSelector2.manager_index s) = Ok "manager"
  /\ StronglySorted Z.lt (AgentSelector2.workstation_indices s).
Proof.
  intros order s.
  assert (Hi : AgentSelector2.__init__ order = Ok s) by (vm_compute; reflexivity).
  destruct (constructed_role_indices2 order s Hi) as (_ & (Hm & _) & _ & _ & Hs & _).
  exact (conj Hi (conj Hm Hs)).
Defined.

(** ** Reinitialisation of the role-aware selectors *)

(** X2. A [reinit] that returns leaves exactly the selector a constructor
    call on the same order builds, whatever the attributes were before; and
    it returns whenever that constructor call does. *)
Theorem reinit_as_constructed (order : list string) :
  (forall s s' : AgentSelector2.t,
      AgentSelector2.reinit order s = (Ok tt, s') <-> AgentSelector2.__init__ order = Ok s')
  /\ (forall s s' : AgentSelector3.t,
         AgentSelector3.reinit order s = (Ok tt, s')
         <-> AgentSelector3.__init__ order = Ok s').
Proof.
  split; intros s s';
    unfold AgentSelector2.reinit, AgentSelector2.__init__,
      AgentSelector3.reinit, AgentSelector3.__init__, bind, lift,
      AgentSelector2.set_agent_order, AgentSelector2.set_manager_index,
      AgentSelector2.set_workstation_indices, AgentSelector2.set_coordination_index,
      AgentSelector2.set_current_index, AgentSelector2.set_selected_agent,
      AgentSelector3.set_agent_order, AgentSelector3.set_manager_index,
      AgentSelector3.set_workstation_indices, AgentSelector3.set_coordination_index,
      AgentSelector3.set_current_index, AgentSelector3.set_selected_agent,
      AgentSelector3.set_previous, modify; simpl;
    destruct (index String.eqb "manager" order) as [mi |]; simpl;
    try (split; discriminate);
    destruct (index String.eqb "coordination" order) as [ci |]; simpl;
    try (split; discriminate);
    split; intros H; injection H as <-; reflexivity.
Qed.

(** X3. A [reinit] on an order without ["manager"] or without
    ["coordination"] raises after it has replaced [agent_order]: the position,
    the selection and [coordination_index] keep their old values, and when
    ["manager"] is the missing name so do [manager_index] and
    [workstation_indices], which then no longer belong to the stored order. *)
Theorem reinit_failure_keeps_indices (order : list string) (s : AgentSelector2.t)
        (d : AgentSelector3.t) :
  ~ In "manager" order \/ ~ In "coordination" order ->
  (exists s',
      AgentSelector2.reinit order s = (Raise ValueError, s')
      /\ AgentSelector2.agent_order s' = order
      /\ AgentSelector2.coordination_index s' = AgentSelector2.coordination_index s
      /\ AgentSelector2._current_index s' = AgentSelector2._current_index s
      /\ AgentSelector2.selected_agent s' = AgentSelector2.selected_agent s
      /\ (~ In "manager" order ->
          AgentSelector2.manager_index s' = AgentSelector2.manager_index s
          /\ AgentSelector2.workstation_indices s' = AgentSelector2.workstation_indices s))
  /\ (exists d',
         AgentSelector3.reinit order d = (Raise ValueError, d')
         /\ AgentSelector3.agent_order d' = order
         /\ AgentSelector3.coordination_index d' = AgentSelector3.coordination_index d
         /\ AgentSelector3._current_index d' = AgentSelector3._current_index d
         /\ AgentSelector3.selected_agent d' = AgentSelector3.selected_agent d
         /\ AgentSelector3._previous_agents_in_cycle_indices d'
            = AgentSelector3._previous_agents_in_cycle_indices d
         /\ (~ In "manager" order ->
             AgentSelector3.manager_index d' = AgentSelector3.manager_index d
             /\ AgentSelector3.workstation_indices d'
                = AgentSelector3.workstation_indices d)).
Proof.
  intros Hmiss.
  unfold AgentSelector2.reinit, AgentSelector3.reinit, bind, lift,
    AgentSelector2.set_agent_order, AgentSelector2.set_manager_index,
    AgentSelector2.set_workstation_indices, AgentSelector2.set_coordination_index,
    AgentSelector3.set_agent_order, AgentSelector3.set_manager_index,
    AgentSelector3.set_workstation_indices, AgentSelector3.set_coordination_index,
    modify; simpl.
  destruct (index String.eqb "manager" order) as [mi | e] eqn:Em; simpl.
  - assert (Hin : In "manager" order).
    { destruct (index_str_ok _ _ _ Em) as (_ & Hg). exact (getitem_In _ _ _ Hg). }
    destruct Hmiss as [Hm | Hc]; [contradiction |].
    rewrite (index_str_missing _ _ Hc). simpl.
    split; eexists; (split; [reflexivity |]); simpl; repeat split; contradiction.
  - apply index_raises in Em. subst e.
    split; eexists; (split; [reflexivity |]); simpl; repeat split.
Qed.

Lemma reinit_failure_keeps_indices_witness :
  let s := AgentSelector2.mk scenario_order 0 [1; 2] 3 5 (Some "workstation_1") in
  let d := AgentSelector3.mk scenario_order 0 [1; 2] 3 5 (Some "workstation_1") [1; 2; 3] in
  (~ In "manager" ["coordination"; "workstation_9"]
   \/ ~ In "coordination" ["coordination"; "workstation_9"])
  /\ exists s',
       AgentSelector2.reinit ["coordination"; "workstation_9"] s = (Raise ValueError, s')
       /\ AgentSelector2.agent_order s' = ["coordination"; "workstation_9"]
       /\ AgentSelector2.coordination_index s' = 3.
Proof.
  intros s d.
  assert (H : ~ In "manager" ["coordination"; "workstation_9"]
              \/ ~ In "coordination" ["coordination"; "workstation_9"]).
  { left. simpl. intros [E | [E | []]]; discriminate. }
  destruct (reinit_failure_keeps_indices _ s d H) as ((s' & Hr & Ho & Hc & _) & _).
  split; [exact H |]. exists s'. exact (conj Hr (conj Ho Hc)).
Defined.

(** ** A turn of the hierarchical selector *)

Lemma getitem_name (order : list string) (i : Z) (a : string) :
  0 <= i -> getitem order i = Ok a -> a = nth (Z.to_nat i) order "".
Proof.
  intros Hi Hg. apply getitem_nonneg_inv in Hg; [| exact Hi].
  symmetry. now apply nth_error_nth.
Qed.

Lemma names_of_nth (order : list string) (indices : list Z) (k : nat) :
  (k < List.length indices)%nat ->
  nth k (names_of order indices) "" = nth (Z.to_nat (nth k indices 0)) order "".
Proof.
  intros Hk. unfold names_of.
  rewrite (nth_indep _ "" (nth (Z.to_nat 0) order "")) by now rewrite length_map.
  now rewrite (map_nth (fun i => nth (Z.to_nat i) order "")).
Qed.

Lemma names_of_length (order : list string) (indices : list Z) :
  List.length (names_of order indices) = List.length indices.
Proof. unfold names_of. apply length_map. Qed.

Lemma names_of_app (order : list string) (l1 l2 : list Z) :
  names_of order (l1 ++ l2) = names_of order l1 ++ names_of order l2.
Proof. unfold names_of. apply map_app. Qed.

(** The identifier at a valid position of a cycle, as [next] reads it. *)
Lemma cycle_name (order : list string) (cycle : list Z) (p : Z) (a : string) :
  0 < len cycle ->
  (forall i, In i cycle -> 0 <= i < len order) ->
  getitem order (nth (Z.to_nat (p mod len cycle)) cycle 0) = Ok a ->
  a = nth (Z.to_nat (p mod len cycle)) (names_of order cycle) "".
Proof.
  intros Hpos Hrange Hg.
  pose proof (Z.mod_pos_bound p (len cycle) Hpos) as Hk.
  rewrite names_of_nth by (unfold len in *; lia).
  apply getitem_name; [| exact Hg].
  apply Hrange. now apply nth_in_range.
Qed.

Section HierarchicalTurn.

Import AgentSelector2 Hierarchical.

Lemma sub_cycle_range (s : t) :
  wf s -> forall i, In i (sub_cycle s) -> 0 <= i < len (agent_order s).
Proof.
  intros (Hr & _) i Hi. apply (roles_index_range _ _ _ _ Hr).
  apply in_or_app. now left.
Qed.

Lemma sub_cycle_pos (s : t) : 0 < len (sub_cycle s).
Proof.
  unfold sub_cycle. rewrite len_app.
  pose proof (len_nonneg (workstation_indices s)). unfold len at 2. simpl. lia.
Qed.

(** [n] non-manager calls in a row: call [k] returns the identifier at
    position [(p + k) % (W + 1)] of the sub-cycle, [p] the position the first
    call found. *)
Lemma repeat_next_outputs2 (m c : bool) (act : list string) (n : nat) :
  forall s,
    wf s ->
    manager_call m act = false ->
    exists outs s',
      repeat_call n (next m c act) s = (Ok outs, s')
      /\ List.length outs = n
      /\ _current_index s' = _current_index s + Z.of_nat n
      /\ forall k,
           (k < n)%nat ->
           nth_error outs k
           = Some (Some (nth (Z.to_nat ((_current_index s + Z.of_nat k)
                                          mod len (sub_cycle s)))
                             (names_of (agent_order s) (sub_cycle s)) "")).
Proof.
  induction n as [| n IH]; intros s Hwf Hm.
  - exists [], s. repeat split; [simpl; lia | intros k Hk; lia].
  - destruct (next_cycle2 s m c act Hwf Hm) as (a & Ha & Hn).
    remember (mk (agent_order s) (manager_index s) (workstation_indices s)
                 (coordination_index s) (_current_index s + 1) (Some a)) as s1 eqn:Es1.
    assert (Ho : agent_order s1 = agent_order s) by (subst s1; reflexivity).
    assert (Hs : sub_cycle s1 = sub_cycle s) by (subst s1; reflexivity).
    assert (Hp : _current_index s1 = _current_index s + 1) by (subst s1; reflexivity).
    pose proof (next_wf2 _ _ _ _ _ _ Hwf Hn) as Hwf1.
    destruct (IH _ Hwf1 Hm) as (outs & s' & Hrun & Hlen & Hc & Hk).
    rewrite Ho, Hs, Hp in Hk.
    exists (Some a :: outs), s'. split; [| split; [| split]].
    + change (repeat_call (Datatypes.S n) (next m c act))
        with (r <- next m c act ;; l <- repeat_call n (next m c act) ;; ret (r :: l)).
      unfold bind at 1. rewrite Hn. unfold bind at 1. rewrite Hrun. reflexivity.
    + cbn [List.length]. now rewrite Hlen.
    + rewrite Hc, Hp. lia.
    + intros [| k] Hlt.
      * cbn [nth_error]. do 2 f_equal. rewrite Z.add_0_r.
        exact (cycle_name _ _ _ _ (sub_cycle_pos s) (sub_cycle_range s Hwf) Ha).
      * cbn [nth_error]. rewrite Hk by lia.
        replace (_current_index s + Z.of_nat (Datatypes.S k))
          with (_current_index s + 1 + Z.of_nat k) by lia.
        reflexivity.
Qed.

End HierarchicalTurn.

(** X4. Non-manager calls of the hierarchical selector walk the sub-cycle
    round robin from wherever the position stands: of [n] consecutive calls,
    call [k] returns the identifier at position [(p + k) % (W + 1)] and the
    position ends at [p + n].  From position 0, [W + 1] calls return the
    workstations in declared order, then ["coordination"]. *)
Theorem hierarchical_turn (s : AgentSelector2.t) (m c : bool) (act : list string)
        (n : nat) :
  Hierarchical.wf s ->
  Hierarchical.manager_call m act = false ->
  exists outs s',
    repeat_call n (AgentSelector2.next m c act) s = (Ok outs, s')
    /\ List.length outs = n
    /\ AgentSelector2._current_index s' = AgentSelector2._current_index s + Z.of_nat n
    /\ (forall k,
           (k < n)%nat ->
           nth_error outs k
           = Some (Some (nth (Z.to_nat ((AgentSelector2._current_index s + Z.of_nat k)
                                          mod len (Hierarchical.sub_cycle s)))
                             (names_of (AgentSelector2.agent_order s)
                                       (Hierarchical.sub_cycle s)) "")))
    /\ (AgentSelector2._current_index s = 0 ->
        n = List.length (Hierarchical.sub_cycle s) ->
        outs = map Some (names_of (AgentSelector2.agent_order s)
                                  (AgentSelector2.workstation_indices s))
               ++ [Some "coordination"]).
Proof.
  intros Hwf Hm.
  destruct (repeat_next_outputs2 m c act n s Hwf Hm) as (outs & s' & Hrun & Hlen & Hc & Hk).
  exists outs, s'. split; [exact Hrun |]. split; [exact Hlen |].
  split; [exact Hc |]. split; [exact Hk |].
  intros H0 Hn.
  assert (Hnames : names_of (AgentSelector2.agent_order s) (Hierarchical.sub_cycle s)
                   = names_of (AgentSelector2.agent_order s)
                              (AgentSelector2.workstation_indices s)
                     ++ ["coordination"]).
  { unfold Hierarchical.sub_cycle. rewrite names_of_app. f_equal.
    unfold names_of. simpl. f_equal. symmetry.
    destruct Hwf as (Hr & _).
    destruct (index_str_ok _ _ _ (proj2 (proj2 Hr))) as (Hci & Hg).
    apply getitem_name; [lia | exact Hg]. }
  replace ([Some "coordination"]) with (map Some ["coordination"]) by reflexivity.
  rewrite <- map_app, <- Hnames.
  apply nth_error_ext. intros k.
  destruct (Nat.lt_ge_cases k n) as [Hlt | Hge].
  - rewrite (Hk k Hlt), H0, Z.add_0_l.
    rewrite Z.mod_small by (unfold len; lia).
    rewrite Nat2Z.id.
    rewrite nth_error_map.
    rewrite (nth_error_nth' _ "") by (rewrite names_of_length; lia).
    reflexivity.
  - rewrite (proj2 (nth_error_None _ _)) by lia.
    symmetry. apply nth_error_None. rewrite length_map, names_of_length. lia.
Qed.

Lemma hierarchical_turn_witness :
  let s := AgentSelector2.mk scenario_order 0 [1; 2] 3 0 None in
  Hierarchical.wf s
  /\ Hierarchical.manager_call false ["manager"] = false
  /\ exists s',
       repeat_call 3 (AgentSelector2.next false true ["manager"]) s
       = (Ok [Some "workstation_0"; Some "workstation_1"; Some "coordination"], s').
Proof.
  intros s.
  assert (Hwf : Hierarchical.wf s) by (vm_compute; repeat split; discriminate).
  assert (Hm : Hierarchical.manager_call false ["manager"] = false) by reflexivity.
  destruct (hierarchical_turn s false true ["manager"] 3 Hwf Hm)
    as (outs & s' & Hrun & _ & _ & _ & Hfull).
  split; [exact Hwf |]. split; [exact Hm |].
  exists s'. rewrite Hrun. now rewrite (Hfull eq_refl eq_refl).
Defined.

(** ** What [reset] of the hierarchical selector leaves *)

(** X5. [AgentSelector2.reset] returns ["manager"] and sets the position to
    0 without touching [selected_agent]: right after it, [is_first()] and
    [is_last()] still answer for the agent selected before the reset. *)
Theorem hierarchical_reset_keeps_queries (s : AgentSelector2.t) :
  Hierarchical.wf s ->
  exists s',
    AgentSelector2.reset s = (Ok "manager", s')
    /\ AgentSelector2._current_index s' = 0
    /\ AgentSelector2.selected_agent s' = AgentSelector2.selected_agent s
    /\ fst (AgentSelector2.is_first s') = fst (AgentSelector2.is_first s)
    /\ fst (AgentSelector2.is_last s') = fst (AgentSelector2.is_last s).
Proof.
  intros Hwf.
  set (s' := AgentSelector2.mk (AgentSelector2.agent_order s)
               (AgentSelector2.manager_index s) (AgentSelector2.workstation_indices s)
               (AgentSelector2.coordination_index s) 0 (AgentSelector2.selected_agent s)).
  assert (Hwf' : Hierarchical.wf s').
  { destruct Hwf as (Hr & _). split; [exact Hr | simpl; lia]. }
  exists s'. split; [exact (reset_spec2 s Hwf) |].
  split; [reflexivity |]. split; [reflexivity |].
  destruct (queries2 s Hwf) as (-> & ->). destruct (queries2 s' Hwf') as (-> & ->).
  split; reflexivity.
Qed.

Lemma hierarchical_reset_keeps_queries_witness :
  let s := AgentSelector2.mk scenario_order 0 [1; 2] 3 3 (Some "coordination") in
  Hierarchical.wf s
  /\ exists s',
       AgentSelector2.reset s = (Ok "manager", s')
       /\ fst (AgentSelector2.is_first s') = Ok false
       /\ fst (AgentSelector2.is_last s') = Ok true.
Proof.
  intros s.
  assert (Hwf : Hierarchical.wf s) by (vm_compute; repeat split; discriminate).
  destruct (hierarchical_reset_keeps_queries s Hwf) as (s' & Hr & _ & _ & Hf & Hl).
  split; [exact Hwf |]. exists s'. split; [exact Hr |].
  rewrite Hf, Hl. split; vm_compute; reflexivity.
Defined.

(** ** What [next] can return *)

Section NextMembers.

Lemma next_member1 (s s' : AgentSelector.t) (a : value) :
  AgentSelector.next s = (Ok a, s') -> In a (AgentSelector.agent_order s).
Proof.
  unfold AgentSelector.next, bind, get, lift, AgentSelector.set_current_agent,
    AgentSelector.set_selected_agent, modify. simpl.
  destruct (mod_ _ _) as [c |]; [| discriminate]. simpl.
  destruct (getitem _ _) as [b |] eqn:E; [| discriminate].
  intros H. injection H as <- _. exact (getitem_In _ _ _ E).
Qed.

Lemma next_member2 (s s' : AgentSelector2.t) (m c : bool) (act : list string)
      (r : option string) :
  AgentSelector2.next m c act s = (Ok r, s') ->
  exists a, r = Some a /\ In a (AgentSelector2.agent_order s).
Proof.
  unfold AgentSelector2.next, bind, get, lift, AgentSelector2.set_selected_agent,
    AgentSelector2.set_current_index, modify. simpl.
  destruct (m && contains String.eqb "manager" act).
  - destruct (getitem _ _) as [b |] eqn:E; [| discriminate]. simpl.
    intros H. injection H as <- _. exists b. split; [reflexivity |].
    exact (getitem_In _ _ _ E).
  - destruct (mod_ _ _) as [k |]; [| discriminate]. simpl.
    destruct (k <? _).
    + destruct (getitem (AgentSelector2.workstation_indices s) k) as [w |];
        [| discriminate]. simpl.
      destruct (getitem _ w) as [b |] eqn:E; [| discriminate]. simpl.
      intros H. injection H as <- _. exists b. split; [reflexivity |].
      exact (getitem_In _ _ _ E).
    + destruct (getitem _ _) as [b |] eqn:E; [| discriminate]. simpl.
      intros H. injection H as <- _. exists b. split; [reflexivity |].
      exact (getitem_In _ _ _ E).
Qed.

Lemma sync_cycle_order (s : AgentSelector3.t) (cycle : list Z) :
  exists s1,
    AgentSelector3.sync_cycle cycle s = (Ok tt, s1)
    /\ AgentSelector3.agent_order s1 = AgentSelector3.agent_order s.
Proof.
  unfold AgentSelector3.sync_cycle, bind, get, ret,
    AgentSelector3.set_current_index, AgentSelector3.set_previous, modify. simpl.
  destruct (negb _); eexists; split; reflexivity.
Qed.

Lemma agents_in_cycle_state (s s' : AgentSelector3.t) (act : list Z)
      (r : result (list Z)) :
  AgentSelector3.agents_in_cycle act s = (r, s') -> s' = s.
Proof.
  unfold AgentSelector3.agents_in_cycle, bind, get, lift, ret.
  destruct (AgentSelector3.active_from _ _ _) as [[| x l] | e];
    intros H; injection H as _ <-; reflexivity.
Qed.

Lemma next_member3 (s s' : AgentSelector3.t) (m : bool) (act : list Z)
      (r : option string) :
  AgentSelector3.next m act s = (Ok r, s') ->
  exists a, r = Some a /\ In a (AgentSelector3.agent_order s).
Proof.
  unfold AgentSelector3.next. destruct m.
  - unfold bind, get, lift, AgentSelector3.set_selected_agent,
      AgentSelector3.set_current_index, AgentSelector3.set_previous, modify. simpl.
    destruct (getitem _ _) as [b |] eqn:E; [| discriminate]. simpl.
    intros H. injection H as <- _. exists b. split; [reflexivity |].
    exact (getitem_In _ _ _ E).
  - unfold bind at 1.
    destruct (AgentSelector3.agents_in_cycle act s) as [[cycle | e] s0] eqn:Ec;
      [| discriminate].
    pose proof (agents_in_cycle_state _ _ _ _ Ec) as ->.
    pose proof (agents_in_cycle_nonempty _ _ _ _ Ec) as Hne.
    destruct cycle as [| c0 cycle]; [congruence |].
    unfold bind at 1.
    destruct (sync_cycle_order s (c0 :: cycle)) as (s1 & -> & Ho).
    unfold bind at 1, AgentSelector3.select_in_cycle.
    unfold bind, get, lift, AgentSelector3.set_selected_agent,
      AgentSelector3.set_current_index, modify. simpl.
    destruct (getitem (c0 :: cycle) _) as [i |]; [| discriminate].
    destruct (getitem _ i) as [b |] eqn:E; [| discriminate]. simpl.
    intros H. injection H as <- _. exists b. split; [reflexivity |].
    rewrite <- Ho. exact (getitem_In _ _ _ E).
Qed.

End NextMembers.

(** X6. Whatever the attributes of a selector hold, a [next] that returns
    returns an element of [agent_order]; in the role-aware selectors it is
    never [None], so the "no agents to act" branch of [AgentSelector3.next] is
    never taken. *)
Theorem next_returns_member (s1 s1' : AgentSelector.t) (a : value)
        (s2 s2' : AgentSelector2.t) (m2 c2 : bool) (act2 : list string)
        (r2 : option string)
        (s3 s3' : AgentSelector3.t) (m3 : bool) (act3 : list Z) (r3 : option string) :
  (AgentSelector.next s1 = (Ok a, s1') -> In a (AgentSelector.agent_order s1))
  /\ (AgentSelector2.next m2 c2 act2 s2 = (Ok r2, s2') ->
      exists b, r2 = Some b /\ In b (AgentSelector2.agent_order s2))
  /\ (AgentSelector3.next m3 act3 s3 = (Ok r3, s3') ->
      exists b, r3 = Some b /\ In b (AgentSelector3.agent_order s3)).
Proof.
  split; [apply next_member1 |]. split; [apply next_member2 | apply next_member3].
Qed.

Lemma next_returns_member_witness :
  let s3 := AgentSelector3.mk scenario_order 0 [1; 2] 3 7 None [1; 2; 3] in
  let s3' := AgentSelector3.mk scenario_order 0 [1; 2] 3 8 (Some "workstation_1") [1; 2; 3] in
  AgentSelector3.next false [1; 1] s3 = (Ok (Some "workstation_1"), s3')
  /\ exists b, Some "workstation_1" = Some b /\ In b scenario_order.
Proof.
  intros s3 s3'.
  assert (Hn : AgentSelector3.next false [1; 1] s3 = (Ok (Some "workstation_1"), s3'))
    by (vm_compute; reflexivity).
  split; [exact Hn |].
  exact (proj2 (proj2 (next_returns_member
                         (AgentSelector.__init__ []) (AgentSelector.__init__ []) VNone
                         (AgentSelector2.mk [] 0 [] 0 0 None)
                         (AgentSelector2.mk [] 0 [] 0 0 None) false false [] None
                         s3 s3' false [1; 1] (Some "workstation_1"))) Hn).
Defined.

(** ** The end of a round of the fixed-order selector *)

(** X9. On an order without duplicates, with the position inside the order,
    [is_last()] holds after a [next()] exactly when that call wrapped the
    position to 0, and [is_first()] exactly when the call started from
    position 0: each holds once per round. *)
Theorem round_end_is_marked (s s' : AgentSelector.t) (a : value) :
  NoDup (AgentSelector.agent_order s) ->
  0 <= AgentSelector._current_agent s < len (AgentSelector.agent_order s) ->
  AgentSelector.next s = (Ok a, s') ->
  (fst (AgentSelector.is_last s') = Ok true <-> AgentSelector._current_agent s' = 0)
  /\ (fst (AgentSelector.is_first s') = Ok true <-> AgentSelector._current_agent s = 0).
Proof.
  intros Hnd Hc Hn. rewrite (next_step s Hc) in Hn. injection Hn as _ Hs'.
  set (order := AgentSelector.agent_order s) in *.
  set (c := AgentSelector._current_agent s) in *.
  assert (Ho : AgentSelector.agent_order s' = order) by (subst s'; reflexivity).
  assert (Hsel : AgentSelector.selected_agent s' = nth (Z.to_nat c) order VNone)
    by (subst s'; reflexivity).
  assert (Hpos : AgentSelector._current_agent s' = (c + 1) mod len order)
    by (subst s'; reflexivity).
  clear Hs'.
  assert (H0 : 0 <= 0 < len order) by lia.
  assert (H1 : - len order <= -1 < 0) by lia.
  pose proof (getitem_ok VNone order 0 H0) as G0.
  pose proof (getitem_neg VNone order (-1) H1) as G1.
  change (Z.to_nat 0) with 0%nat in G0.
  replace (Z.to_nat (-1 + len order)) with (List.length order - 1)%nat in G1
    by (unfold len; lia).
  rewrite <- Ho in G0 at 1. rewrite <- Ho in G1 at 1.
  assert (Hinj : forall i j : nat,
             (i < List.length order)%nat -> (j < List.length order)%nat ->
             (value_eqb (nth i order VNone) (nth j order VNone) = true <-> i = j)).
  { intros i j Hi Hj. split.
    - intros E. apply value_eqb_eq in E.
      exact (proj1 (NoDup_nth order VNone) Hnd i j Hi Hj E).
    - intros ->. apply value_eqb_refl. }
  split.
  - rewrite (is_last_spec1 s' _ G1), Hsel, Hpos. cbn [fst].
    split.
    + intros E. injection E as E. apply Hinj in E; try (unfold len in *; lia).
      replace (c + 1) with (len order) by (unfold len in *; lia).
      apply Z.mod_same. lia.
    + intros E. f_equal. apply Hinj; try (unfold len in *; lia).
      destruct (Z.eq_dec (c + 1) (len order)) as [Heq | Hne];
        [unfold len in *; lia |].
      rewrite Z.mod_small in E by lia. lia.
  - rewrite (is_first_spec1 s' _ G0), Hsel. cbn [fst].
    split.
    + intros E. injection E as E. apply Hinj in E; try (unfold len in *; lia).
    + intros E. f_equal. apply Hinj; try (unfold len in *; lia).
Qed.

Lemma round_end_is_marked_witness :
  let order := [VStr "prisoner_0"; VStr "prisoner_1"; VStr "prisoner_2"] in
  let s := AgentSelector.mk order 2 (VStr "prisoner_1") in
  let s' := AgentSelector.mk order 0 (VStr "prisoner_2") in
  NoDup (AgentSelector.agent_order s)
  /\ 0 <= AgentSelector._current_agent s < len (AgentSelector.agent_order s)
  /\ AgentSelector.next s = (Ok (VStr "prisoner_2"), s')
  /\ fst (AgentSelector.is_last s') = Ok true.
Proof.
  intros order s s'.
  assert (Hnd : NoDup (AgentSelector.agent_order s)).
  { unfold s, order. simpl. repeat constructor; simpl; intuition discriminate. }
  assert (Hc : 0 <= AgentSelector._current_agent s < len (AgentSelector.agent_order s))
    by (vm_compute; split; [discriminate | reflexivity]).
  assert (Hn : AgentSelector.next s = (Ok (VStr "prisoner_2"), s'))
    by (vm_compute; reflexivity).
  split; [exact Hnd |]. split; [exact Hc |]. split; [exact Hn |].
  exact (proj2 (proj1 (round_end_is_marked s s' _ Hnd Hc Hn)) eq_refl).
Defined.

(** ** A turn of the dynamic selector *)

Section DynamicTurn.

Import AgentSelector3 Dynamic.

Lemma cycle_range3 (s : t) (act cycle : list Z) :
  wf s ->
  len (workstation_indices s) <= len act ->
  agents_in_cycle act s = (Ok cycle, s) ->
  0 < len cycle /\ forall i, In i cycle -> 0 <= i < len (agent_order s).
Proof.
  intros Hwf Hlen Hcyc.
  destruct (agents_in_cycle_ok s act Hwf Hlen) as (c & cyc & Hc & Hrange).
  rewrite Hc in Hcyc. injection Hcyc as <-.
  split; [rewrite len_cons; pose proof (len_nonneg cyc); lia | exact Hrange].
Qed.

(** While the computed cycle is the recorded one, call [k] of [n] returns
    the identifier at position [(p + k) % len] of the cycle. *)
Lemma repeat_next_outputs3 (act cycle : list Z) (n : nat) :
  forall s,
    wf s ->
    len (workstation_indices s) <= len act ->
    agents_in_cycle act s = (Ok cycle, s) ->
    _previous_agents_in_cycle_indices s = cycle ->
    exists outs s',
      repeat_call n (next false act) s = (Ok outs, s')
      /\ List.length outs = n
      /\ forall k,
           (k < n)%nat ->
           nth_error outs k
           = Some (Some (nth (Z.to_nat ((_current_index s + Z.of_nat k) mod len cycle))
                             (names_of (agent_order s) cycle) "")).
Proof.
  induction n as [| n IH]; intros s Hwf Hlen Hcyc Hprev.
  - exists [], s. repeat split. intros k Hk. lia.
  - destruct (cycle_range3 s act cycle Hwf Hlen Hcyc) as (Hpos & Hrange).
    destruct (next_cycle3 s act Hwf Hlen)
      as (cycle' & s1 & a & Hcyc' & _ & _ & Hcase & Ha & Hn).
    assert (cycle' = cycle) by congruence. subst cycle'.
    destruct Hcase as [(_ & ->) | (Hne & _)]; [| congruence].
    remember (advanced s (_current_index s + 1) a
                (_previous_agents_in_cycle_indices s)) as s2 eqn:Es2.
    assert (Ho : agent_order s2 = agent_order s) by (subst s2; reflexivity).
    assert (Hp : _current_index s2 = _current_index s + 1) by (subst s2; reflexivity).
    destruct (IH s2) as (outs & s' & Hrun & Hl & Hk).
    + subst s2. exact Hwf.
    + subst s2. exact Hlen.
    + subst s2. now apply agents_in_cycle_advanced.
    + subst s2. exact Hprev.
    + rewrite Ho, Hp in Hk.
      exists (Some a :: outs), s'. split; [| split].
      * change (repeat_call (Datatypes.S n) (next false act))
          with (r <- next false act ;; l <- repeat_call n (next false act) ;;
                ret (r :: l)).
        unfold bind at 1. rewrite Hn. unfold bind at 1. rewrite Hrun. reflexivity.
      * cbn [List.length]. now rewrite Hl.
      * intros [| k] Hlt.
        -- cbn [nth_error]. do 2 f_equal. rewrite Z.add_0_r.
           exact (cycle_name _ _ _ _ Hpos Hrange Ha).
        -- cbn [nth_error]. rewrite Hk by lia.
           replace (_current_index s + Z.of_nat (Datatypes.S k))
             with (_current_index s + 1 + Z.of_nat k) by lia.
           reflexivity.
Qed.

(** The same from any recorded cycle: the first call restarts the position
    when the cycle has changed, and [p] is the position it then reads. *)
Lemma repeat_next_outputs3_any (act : list Z) (n : nat) (s : t) :
  wf s ->
  len (workstation_indices s) <= len act ->
  exists cycle outs s',
    agents_in_cycle act s = (Ok cycle, s)
    /\ repeat_call n (next false act) s = (Ok outs, s')
    /\ List.length outs = n
    /\ forall k,
         (k < n)%nat ->
         nth_error outs k
         = Some (Some (nth (Z.to_nat ((_current_index (snd (sync_cycle cycle s))
                                       + Z.of_nat k) mod len cycle))
                           (names_of (agent_order s) cycle) "")).
Proof.
  intros Hwf Hlen.
  destruct (next_cycle3 s act Hwf Hlen)
    as (cycle & s1 & a & Hcyc & _ & Hsync & Hcase & Ha & Hn).
  destruct (cycle_range3 s act cycle Hwf Hlen Hcyc) as (Hpos & Hrange).
  exists cycle. rewrite Hsync. cbn [snd].
  destruct n as [| n].
  - exists [], s. split; [exact Hcyc |]. split; [reflexivity |].
    split; [reflexivity |]. intros k Hk. lia.
  - remember (advanced s (_current_index s1 + 1) a
                (_previous_agents_in_cycle_indices s1)) as s2 eqn:Es2.
    assert (Ho : agent_order s2 = agent_order s) by (subst s2; reflexivity).
    assert (Hp : _current_index s2 = _current_index s1 + 1) by (subst s2; reflexivity).
    destruct (repeat_next_outputs3 act cycle n s2) as (outs & s' & Hrun & Hl & Hk).
    + subst s2. exact Hwf.
    + subst s2. exact Hlen.
    + subst s2. now apply agents_in_cycle_advanced.
    + subst s2. destruct Hcase as [(He & ->) | (_ & _ & He)]; [now symmetry | exact He].
    + rewrite Ho, Hp in Hk.
      exists (Some a :: outs), s'. split; [exact Hcyc |]. split; [| split].
      * change (repeat_call (Datatypes.S n) (next false act))
          with (r <- next false act ;; l <- repeat_call n (next false act) ;;
                ret (r :: l)).
        unfold bind at 1. rewrite Hn. unfold bind at 1. rewrite Hrun. reflexivity.
      * cbn [List.length]. now rewrite Hl.
      * intros [| k] Hlt.
        -- cbn [nth_error]. do 2 f_equal. rewrite Z.add_0_r.
           exact (cycle_name _ _ _ _ Hpos Hrange Ha).
        -- cbn [nth_error]. rewrite Hk by lia.
           replace (_current_index s1 + Z.of_nat (Datatypes.S k))
             with (_current_index s1 + 1 + Z.of_nat k) by lia.
           reflexivity.
Qed.

(** No flag equal to 1: the comprehension of active workstations is empty. *)
Lemma active_from_none (act : list Z) (ws : list Z) :
  forall i,
    0 <= i ->
    i + len ws <= len act ->
    (forall j f, i <= j < i + len ws -> getitem act j = Ok f -> f <> 1) ->
    active_from i ws act = Ok [].
Proof.
  induction ws as [| idx ws IH]; intros i Hi Hle Hnone; simpl; [reflexivity |].
  pose proof (len_cons idx ws) as Hlen. pose proof (len_nonneg ws).
  destruct (getitem_total act i) as (flag & Hf); [lia |].
  rewrite Hf. rewrite IH; [| lia | lia |].
  - pose proof (Hnone i flag ltac:(lia) Hf) as Hne.
    destruct (Z.eqb_spec flag 1); [contradiction | reflexivity].
  - intros j f Hj. apply Hnone. lia.
Qed.

End DynamicTurn.

(** X7. Non-manager calls of the dynamic selector with one activity vector
    walk the eligible cycle round robin: of [n] consecutive calls, call [k]
    returns the identifier at position [(p + k) % len(cycle)], where [p] is 0
    if the cycle differs from the recorded one and the stored position
    otherwise.  After a change of cycle, [len(cycle)] calls return the cycle
    in order. *)
Theorem dynamic_turn (s : AgentSelector3.t) (act : list Z) (n : nat) :
  Dynamic.wf s ->
  len (AgentSelector3.workstation_indices s) <= len act ->
  exists cycle outs s',
    AgentSelector3.agents_in_cycle act s = (Ok cycle, s)
    /\ repeat_call n (AgentSelector3.next false act) s = (Ok outs, s')
    /\ List.length outs = n
    /\ (forall k,
           (k < n)%nat ->
           nth_error outs k
           = Some (Some (nth (Z.to_nat
                                ((AgentSelector3._current_index
                                    (snd (AgentSelector3.sync_cycle cycle s))
                                  + Z.of_nat k) mod len cycle))
                             (names_of (AgentSelector3.agent_order s) cycle) "")))
    /\ (cycle <> AgentSelector3._previous_agents_in_cycle_indices s ->
        n = List.length cycle ->
        outs = map Some (names_of (AgentSelector3.agent_order s) cycle)).
Proof.
  intros Hwf Hlen.
  destruct (repeat_next_outputs3_any act n s Hwf Hlen)
    as (cycle & outs & s' & Hcyc & Hrun & Hl & Hk).
  exists cycle, outs, s'. split; [exact Hcyc |]. split; [exact Hrun |].
  split; [exact Hl |]. split; [exact Hk |].
  intros Hdiff Hn.
  rewrite (sync_cycle_changed s cycle Hdiff) in Hk. cbn [snd] in Hk.
  apply nth_error_ext. intros k.
  destruct (Nat.lt_ge_cases k n) as [Hlt | Hge].
  - rewrite (Hk k Hlt).
    cbn [AgentSelector3._current_index]. rewrite Z.add_0_l.
    rewrite Z.mod_small by (unfold len; lia).
    rewrite Nat2Z.id, nth_error_map.
    rewrite (nth_error_nth' _ "") by (rewrite names_of_length; lia).
    reflexivity.
  - rewrite (proj2 (nth_error_None _ _)) by lia.
    symmetry. apply nth_error_None. rewrite length_map, names_of_length. lia.
Qed.

Lemma dynamic_turn_witness :
  let s := AgentSelector3.mk scenario_order 0 [1; 2] 3 0 (Some "manager") [] in
  Dynamic.wf s
  /\ len (AgentSelector3.workstation_indices s) <= len [0; 1]
  /\ exists s',
       repeat_call 2 (AgentSelector3.next false [0; 1]) s
       = (Ok [Some "workstation_1"; Some "coordination"], s').
Proof.
  intros s.
  assert (Hwf : Dynamic.wf s) by (vm_compute; repeat split).
  assert (Hlen : len (AgentSelector3.workstation_indices s) <= len [0; 1])
    by (vm_compute; discriminate).
  destruct (dynamic_turn s [0; 1] 2 Hwf Hlen)
    as (cycle & outs & s' & Hcyc & Hrun & _ & _ & Hfull).
  assert (Hc : cycle = [2; 3]).
  { assert (E : AgentSelector3.agents_in_cycle [0; 1] s = (Ok [2; 3], s))
      by (vm_compute; reflexivity).
    rewrite E in Hcyc. now injection Hcyc as <-. }
  subst cycle.
  split; [exact Hwf |]. split; [exact Hlen |].
  exists s'. rewrite Hrun. rewrite Hfull; [reflexivity | discriminate | reflexivity].
Defined.

(** X8. Fallback reachability: when no flag of the activity vector is 1, the
    eligible cycle is the workstations, the coordination agent and the
    manager, and [W + 2] consecutive non-manager calls with that vector return
    ["manager"] at least once, whatever the position and the recorded cycle
    were. *)
Theorem fallback_reaches_manager (s : AgentSelector3.t) (act : list Z) :
  Dynamic.wf s ->
  len (AgentSelector3.workstation_indices s) <= len act ->
  (forall j f,
      0 <= j < len (AgentSelector3.workstation_indices s) ->
      getitem act j = Ok f -> f <> 1) ->
  AgentSelector3.agents_in_cycle act s
  = (Ok ((AgentSelector3.workstation_indices s
            ++ [AgentSelector3.coordination_index s])
           ++ [AgentSelector3.manager_index s]), s)
  /\ exists outs s',
       repeat_call (List.length (AgentSelector3.workstation_indices s) + 2)
         (AgentSelector3.next false act) s = (Ok outs, s')
       /\ In (Some "manager") outs.
Proof.
  intros Hwf Hlen Hnone.
  set (ws := AgentSelector3.workstation_indices s) in *.
  set (fallback := (ws ++ [AgentSelector3.coordination_index s])
                     ++ [AgentSelector3.manager_index s]).
  assert (Hfb : AgentSelector3.agents_in_cycle act s = (Ok fallback, s)).
  { unfold AgentSelector3.agents_in_cycle, bind, get, lift, ret. fold ws.
    rewrite (active_from_none act ws 0); [reflexivity | lia | lia |].
    intros j f Hj. apply Hnone. lia. }
  split; [exact Hfb |].
  destruct (repeat_next_outputs3_any act (List.length ws + 2) s Hwf Hlen)
    as (cycle & outs & s' & Hcyc & Hrun & Hl & Hk).
  rewrite Hfb in Hcyc. injection Hcyc as <-.
  exists outs, s'. split; [exact Hrun |].
  set (p := AgentSelector3._current_index (snd (AgentSelector3.sync_cycle fallback s)))
    in *.
  assert (HL : len fallback = Z.of_nat (List.length ws) + 2).
  { unfold fallback. rewrite !len_app. unfold len. simpl. lia. }
  set (k := Z.to_nat ((len fallback - 1 - p) mod len fallback)).
  assert (Hkb : 0 <= (len fallback - 1 - p) mod len fallback < len fallback)
    by (apply Z.mod_pos_bound; lia).
  assert (Hklt : (k < List.length ws + 2)%nat) by (unfold k; lia).
  pose proof (Hk k Hklt) as Hout.
  assert (Hidx : (p + Z.of_nat k) mod len fallback = len fallback - 1).
  { unfold k. rewrite Z2Nat.id by lia.
    rewrite Zplus_mod_idemp_r.
    replace (p + (len fallback - 1 - p)) with (len fallback - 1) by lia.
    apply Z.mod_small. lia. }
  rewrite Hidx in Hout.
  assert (Hname : nth (Z.to_nat (len fallback - 1))
                      (names_of (AgentSelector3.agent_order s) fallback) ""
                  = "manager").
  { replace (Z.to_nat (len fallback - 1)) with (List.length ws + 1)%nat by lia.
    unfold fallback. rewrite names_of_app.
    assert (Hl1 : List.length (names_of (AgentSelector3.agent_order s)
                                 (ws ++ [AgentSelector3.coordination_index s]))
                  = (List.length ws + 1)%nat)
      by (rewrite names_of_length, length_app; reflexivity).
    rewrite app_nth2 by lia. rewrite Hl1, Nat.sub_diag.
    unfold names_of. simpl. symmetry.
    destruct (index_str_ok _ _ _ (proj1 Hwf)) as (Hmi & Hg).
    apply getitem_name; [lia | exact Hg]. }
  rewrite Hname in Hout.
  exact (nth_error_In _ _ Hout).
Qed.

Lemma fallback_reaches_manager_witness :
  let s := AgentSelector3.mk scenario_order 0 [1; 2] 3 6 (Some "coordination") [1; 3] in
  Dynamic.wf s
  /\ len (AgentSelector3.workstation_indices s) <= len [0; 0]
  /\ exists outs s',
       repeat_call 4 (AgentSelector3.next false [0; 0]) s = (Ok outs, s')
       /\ In (Some "manager") outs.
Proof.
  intros s.
  assert (Hwf : Dynamic.wf s) by (vm_compute; repeat split).
  assert (Hlen : len (AgentSelector3.workstation_indices s) <= len [0; 0])
    by (vm_compute; discriminate).
  assert (Hnone : forall j f,
             0 <= j < len (AgentSelector3.workstation_indices s) ->
             getitem [0; 0] j = Ok f -> f <> 1).
  { intros j f Hj Hg. apply getitem_In in Hg.
    destruct Hg as [<- | [<- | []]]; discriminate. }
  split; [exact Hwf |]. split; [exact Hlen |].
  exact (proj2 (fallback_reaches_manager s [0; 0] Hwf Hlen Hnone)).
Defined.

(** ** The [==] of selectors *)

Lemma value_eqb_sym (a b : value) : value_eqb a b = value_eqb b a.
Proof.
  destruct a, b; simpl; try reflexivity; [apply Z.eqb_sym | apply String.eqb_sym].
Qed.

Lemma opt_str_eqb_sym (a b : option string) : opt_str_eqb a b = opt_str_eqb b a.
Proof. destruct a, b; simpl; try reflexivity. apply String.eqb_sym. Qed.

Lemma list_eqb_sym {A : Type} (eqb : A -> A -> bool) :
  (forall a b, eqb a b = eqb b a) ->
  forall l1 l2, list_eqb eqb l1 l2 = list_eqb eqb l2 l1.
Proof.
  intros Hs. induction l1 as [| a l1 IH]; intros [| b l2]; simpl; try reflexivity.
  now rewrite Hs, IH.
Qed.

Lemma list_eqb_eq {A : Type} (eqb : A -> A -> bool) :
  (forall a b, eqb a b = true <-> a = b) ->
  forall l1 l2, list_eqb eqb l1 l2 = true <-> l1 = l2.
Proof.
  intros He. induction l1 as [| a l1 IH]; intros [| b l2]; simpl;
    try (split; [discriminate | congruence]); try tauto.
  rewrite andb_true_iff, He, IH. split.
  - intros [-> ->]. reflexivity.
  - intros H. injection H as -> ->. auto.
Qed.

Lemma value_eqb_iff (a b : value) : value_eqb a b = true <-> a = b.
Proof. split; [apply value_eqb_eq | intros ->; apply value_eqb_refl]. Qed.

Lemma same_fields1_iff (s s' : AgentSelector.t) :
  AgentSelector.same_fields s s' = true <-> s = s'.
Proof.
  unfold AgentSelector.same_fields.
  rewrite !andb_true_iff, (list_eqb_eq _ value_eqb_iff), Z.eqb_eq, value_eqb_iff.
  destruct s, s'; simpl. split.
  - intros [[-> ->] ->]. reflexivity.
  - intros H. injection H as -> -> ->. auto.
Qed.

Lemma same_fields2_iff (s s' : AgentSelector2.t) :
  AgentSelector2.same_fields s s' = true
  <-> AgentSelector2.agent_order s = AgentSelector2.agent_order s'
      /\ AgentSelector2._current_index s = AgentSelector2._current_index s'
      /\ AgentSelector2.selected_agent s = AgentSelector2.selected_agent s'.
Proof.
  unfold AgentSelector2.same_fields.
  rewrite !andb_true_iff, (list_eqb_eq _ String.eqb_eq), Z.eqb_eq, opt_str_eqb_eq.
  tauto.
Qed.

(** X10. [==] between selector objects of any of the three classes is
    reflexive and symmetric. *)
Theorem py_eq_reflexive_symmetric (a b : Object.object) :
  Object.py_eq a a = true /\ Object.py_eq a b = Object.py_eq b a.
Proof.
  destruct a as [i [s1 | s2 | s3]], b as [j [t1 | t2 | t3]];
    unfold Object.py_eq, Object.__eq__, Object.AgentSelector__eq__,
      Object.AgentSelector2__eq__, Object.AgentSelector3__eq__; simpl;
    unfold AgentSelector.same_fields, AgentSelector2.same_fields;
    rewrite ?(list_eqb_refl _ _ value_eqb_refl), ?(list_eqb_refl _ _ String.eqb_refl),
      ?Z.eqb_refl, ?value_eqb_refl, ?opt_str_eqb_refl, ?Nat.eqb_refl;
    (split; [reflexivity |]);
    rewrite ?(list_eqb_sym _ value_eqb_sym (AgentSelector.agent_order s1)),
      ?(list_eqb_sym _ String.eqb_sym (AgentSelector2.agent_order s2)),
      ?(Z.eqb_sym (AgentSelector._current_agent s1)),
      ?(Z.eqb_sym (AgentSelector2._current_index s2)),
      ?(value_eqb_sym (AgentSelector.selected_agent s1)),
      ?(opt_str_eqb_sym (AgentSelector2.selected_agent s2)),
      ?(Nat.eqb_sym i j);
    reflexivity.
Qed.

(** X11. Two fixed-order selectors compare equal exactly when their three
    attributes are equal.  Two hierarchical selectors compare equal exactly
    when order, position and selection are equal, and for selectors reached
    through the calls of the class that makes all their attributes equal. *)
Theorem same_class_equality (i j : nat) (s s' : AgentSelector.t)
        (t t' : AgentSelector2.t) :
  (Object.py_eq {| Object.ident := i; Object.inst := Object.OfAgentSelector s |}
                {| Object.ident := j; Object.inst := Object.OfAgentSelector s' |} = true
   <-> s = s')
  /\ (Object.py_eq {| Object.ident := i; Object.inst := Object.OfAgentSelector2 t |}
                   {| Object.ident := j; Object.inst := Object.OfAgentSelector2 t' |}
      = true
      <-> AgentSelector2.agent_order t = AgentSelector2.agent_order t'
          /\ AgentSelector2._current_index t = AgentSelector2._current_index t'
          /\ AgentSelector2.selected_agent t = AgentSelector2.selected_agent t')
  /\ (AgentSelector2.reachable t -> AgentSelector2.reachable t' ->
      (Object.py_eq {| Object.ident := i; Object.inst := Object.OfAgentSelector2 t |}
                    {| Object.ident := j; Object.inst := Object.OfAgentSelector2 t' |}
       = true
       <-> t = t')).
Proof.
  assert (H2 : Object.py_eq
                 {| Object.ident := i; Object.inst := Object.OfAgentSelector2 t |}
                 {| Object.ident := j; Object.inst := Object.OfAgentSelector2 t' |}
               = true
               <-> AgentSelector2.agent_order t = AgentSelector2.agent_order t'
                   /\ AgentSelector2._current_index t = AgentSelector2._current_index t'
                   /\ AgentSelector2.selected_agent t = AgentSelector2.selected_agent t')
    by exact (same_fields2_iff t t').
  split; [exact (same_fields1_iff s s') |]. split; [exact H2 |].
  intros Hr Hr'. rewrite H2. split.
  - intros (Ho & Hc & Hs).
    destruct (reachable_wf2 t Hr) as ((Hm & Hw & Hci) & _).
    destruct (reachable_wf2 t' Hr') as ((Hm' & Hw' & Hci') & _).
    rewrite <- Ho in Hm', Hw', Hci'.
    destruct t, t'; simpl in *. subst. f_equal; congruence.
  - intros ->. auto.
Qed.

Lemma same_class_equality_witness :
  let t := AgentSelector2.mk scenario_order 0 [1; 2] 3 0 None in
  AgentSelector2.reachable t
  /\ Object.py_eq {| Object.ident := 1; Object.inst := Object.OfAgentSelector2 t |}
                  {| Object.ident := 2; Object.inst := Object.OfAgentSelector2 t |}
     = true.
Proof.
  intros t.
  assert (Hr : AgentSelector2.reachable t)
    by (apply (AgentSelector2.reach_init scenario_order); vm_compute; reflexivity).
  split; [exact Hr |].
  exact (proj2 (proj2 (proj2 (same_class_equality 1 2 (AgentSelector.__init__ [])
                                (AgentSelector.__init__ []) t t)) Hr Hr) eq_refl).
Defined.

(** X12. Because [AgentSelector3.__eq__] accepts an [AgentSelector2], a
    dynamic and a hierarchical selector compare equal, in either operand
    order, exactly when order, position and selection agree.  So [==] is not
    transitive: two distinct dynamic selectors that both equal one
    hierarchical selector are unequal to each other. *)
Theorem cross_class_equality (i j k : nat) (d : AgentSelector3.t)
        (t : AgentSelector2.t) :
  (Object.py_eq {| Object.ident := i; Object.inst := Object.OfAgentSelector3 d |}
                {| Object.ident := j; Object.inst := Object.OfAgentSelector2 t |} = true
   <-> AgentSelector3.agent_order d = AgentSelector2.agent_order t
       /\ AgentSelector3._current_index d = AgentSelector2._current_index t
       /\ AgentSelector3.selected_agent d = AgentSelector2.selected_agent t)
  /\ Object.py_eq {| Object.ident := j; Object.inst := Object.OfAgentSelector2 t |}
                  {| Object.ident := i; Object.inst := Object.OfAgentSelector3 d |}
     = Object.py_eq {| Object.ident := i; Object.inst := Object.OfAgentSelector3 d |}
                    {| Object.ident := j; Object.inst := Object.OfAgentSelector2 t |}
  /\ (i <> k ->
      Object.py_eq {| Object.ident := i; Object.inst := Object.OfAgentSelector3 d |}
                   {| Object.ident := k; Object.inst := Object.OfAgentSelector3 d |}
      = false).
Proof.
  split; [| split].
  - unfold Object.py_eq, Object.__eq__, Object.AgentSelector3__eq__. simpl.
    rewrite !andb_true_iff, (list_eqb_eq _ String.eqb_eq), Z.eqb_eq, opt_str_eqb_eq.
    tauto.
  - reflexivity.
  - intros Hik. unfold Object.py_eq, Object.__eq__, Object.AgentSelector3__eq__. simpl.
    now apply Nat.eqb_neq.
Qed.

Lemma cross_class_equality_witness :
  let d := AgentSelector3.mk scenario_order 0 [1; 2] 3 0 None [] in
  let t := AgentSelector2.mk scenario_order 0 [1; 2] 3 0 None in
  1%nat <> 3%nat
  /\ Object.py_eq {| Object.ident := 1; Object.inst := Object.OfAgentSelector3 d |}
                  {| Object.ident := 2; Object.inst := Object.OfAgentSelector2 t |} = true
  /\ Object.py_eq {| Object.ident := 1; Object.inst := Object.OfAgentSelector3 d |}
                  {| Object.ident := 3; Object.inst := Object.OfAgentSelector3 d |}
     = false.
Proof.
  intros d t.
  assert (Hne : 1%nat <> 3%nat) by discriminate.
  destruct (cross_class_equality 1 2 3 d t) as (Hiff & _ & Hneq).
  split; [exact Hne |]. split; [| exact (Hneq Hne)].
  apply Hiff. repeat split.
Defined.

(** * Properties of the environments *)

(** ** Dictionaries *)

Lemma key_eqb_iff (a b : Env.key) : Env.key_eqb a b = true <-> a = b.
Proof.
  destruct a, b; simpl; try (split; [discriminate | congruence]).
  - rewrite Z.eqb_eq. split; congruence.
  - rewrite String.eqb_eq. split; congruence.
Qed.

Section DictFacts.

Variable K V : Type.
Variable eqb : K -> K -> bool.
Hypothesis eqb_iff : forall a b, eqb a b = true <-> a = b.

Lemma dict_get_set_same (k : K) (v : V) (d : Env.dict K V) :
  Env.dict_get eqb k (Env.dict_set eqb k v d) = Some v.
Proof.
  induction d as [| [k' v'] d IH]; simpl.
  - now rewrite (proj2 (eqb_iff k k) eq_refl).
  - destruct (eqb k' k) eqn:E; simpl; rewrite E; [reflexivity | exact IH].
Qed.

Lemma dict_get_set_other (k k2 : K) (v : V) (d : Env.dict K V) :
  k2 <> k ->
  Env.dict_get eqb k2 (Env.dict_set eqb k v d) = Env.dict_get eqb k2 d.
Proof.
  intros Hne. induction d as [| [k' v'] d IH]; simpl.
  - destruct (eqb k k2) eqn:E; [| reflexivity].
    apply eqb_iff in E. congruence.
  - destruct (eqb k' k) eqn:E; simpl.
    + apply eqb_iff in E. subst k'.
      destruct (eqb k k2) eqn:E2; [| reflexivity].
      apply eqb_iff in E2. congruence.
    + destruct (eqb k' k2); [reflexivity | exact IH].
Qed.

Lemma dict_set_fresh (k : K) (v : V) (d : Env.dict K V) :
  (forall k' v', In (k', v') d -> k' <> k) ->
  Env.dict_set eqb k v d = d ++ [(k, v)].
Proof.
  induction d as [| [k' v'] d IH]; intros Hf; simpl; [reflexivity |].
  destruct (eqb k' k) eqn:E.
  - apply eqb_iff in E. exfalso. apply (Hf k' v'); [now left | exact E].
  - rewrite IH; [reflexivity |]. intros k2 v2 Hin. apply (Hf k2 v2). now right.
Qed.

End DictFacts.

(** ** [convert_to_dict] *)

Section ConvertFacts.

Import Env CooperativePong.

Variable A : Type.

Lemma convert_fold (l : list A) :
  forall k acc,
    (forall k' v', In (k', v') acc -> exists j, k' = KInt j /\ j < k) ->
    fold_left (fun d p => dict_set key_eqb (KInt (fst p)) (snd p) d)
              (enumerate_from k l) acc
    = acc ++ map keyed (enumerate_from k l).
Proof.
  induction l as [| a l IH]; intros k acc Hacc; simpl.
  - now rewrite app_nil_r.
  - rewrite (dict_set_fresh _ _ _ key_eqb_iff).
    + rewrite IH.
      * rewrite <- app_assoc. reflexivity.
      * intros k' v' Hin. apply in_app_or in Hin. destruct Hin as [Hin | [E | []]].
        -- destruct (Hacc _ _ Hin) as (j & -> & Hj). exists j. split; [reflexivity | lia].
        -- injection E as <- _. exists k. split; [reflexivity | lia].
    + intros k' v' Hin E. destruct (Hacc _ _ Hin) as (j & -> & Hj).
      injection E as E. lia.
Qed.

Lemma convert_to_dict_items (l : list A) :
  convert_to_dict l = map keyed (enumerate l).
Proof.
  unfold convert_to_dict, enumerate. rewrite convert_fold; [reflexivity |].
  intros k' v' [].
Qed.

Lemma dict_get_enumerate (l : list A) :
  forall k i,
    dict_get key_eqb (KInt i) (map keyed (enumerate_from k l))
    = if i <? k then None else nth_error l (Z.to_nat (i - k)).
Proof.
  induction l as [| a l IH]; intros k i; simpl.
  - destruct (i <? k); [reflexivity |]. destruct (Z.to_nat (i - k)); reflexivity.
  - destruct (Z.eqb_spec k i) as [-> | Hne].
    + rewrite Z.ltb_irrefl, Z.sub_diag. reflexivity.
    + rewrite IH. destruct (Z.ltb_spec i k) as [Hlt | Hge].
      * destruct (Z.ltb_spec i (k + 1)); [reflexivity | lia].
      * destruct (Z.ltb_spec i (k + 1)); [lia |].
        replace (Z.to_nat (i - k)) with (Datatypes.S (Z.to_nat (i - (k + 1)))) by lia.
        reflexivity.
Qed.

Lemma dict_get_enumerate_str (l : list A) (name : string) :
  forall k, dict_get key_eqb (KStr name) (map keyed (enumerate_from k l)) = None.
Proof.
  induction l as [| a l IH]; intros k; simpl; [reflexivity | apply IH].
Qed.

Lemma convert_to_dict_get (l : list A) (i : Z) :
  0 <= i ->
  dict_get key_eqb (KInt i) (convert_to_dict l) = nth_error l (Z.to_nat i).
Proof.
  intros Hi. rewrite convert_to_dict_items. unfold enumerate.
  rewrite dict_get_enumerate.
  destruct (Z.ltb_spec i 0); [lia |]. now rewrite Z.sub_0_r.
Qed.

Lemma enumerate_from_snd (l : list A) :
  forall k, map snd (enumerate_from k l) = l.
Proof.
  induction l as [| a l IH]; intros k; simpl; [reflexivity | now rewrite IH].
Qed.

End ConvertFacts.

(** X13. [convert_to_dict] stores item [i] of the list under the key [i]:
    looking up a position gives the item there, any other key is absent, and
    the values of the dictionary, in order, are the list. *)
Theorem convert_to_dict_lookup {A : Type} (l : list A) :
  (forall i, 0 <= i ->
     Env.dict_get Env.key_eqb (Env.KInt i) (CooperativePong.convert_to_dict l)
     = nth_error l (Z.to_nat i))
  /\ (forall i, i < 0 ->
        Env.dict_get Env.key_eqb (Env.KInt i) (CooperativePong.convert_to_dict l) = None)
  /\ (forall name,
        Env.dict_get Env.key_eqb (Env.KStr name) (CooperativePong.convert_to_dict l)
        = None)
  /\ map snd (CooperativePong.convert_to_dict l) = l.
Proof.
  split; [intros i Hi; now apply convert_to_dict_get |].
  rewrite convert_to_dict_items. unfold enumerate. repeat split.
  - intros i Hi. rewrite dict_get_enumerate.
    destruct (Z.ltb_spec i 0); [reflexivity | lia].
  - intros name. apply dict_get_enumerate_str.
  - rewrite map_map. simpl. apply enumerate_from_snd.
Qed.

Lemma convert_to_dict_lookup_witness :
  0 <= 1
  /\ Env.dict_get Env.key_eqb (Env.KInt 1)
       (CooperativePong.convert_to_dict ["left"; "right"]) = Some "right".
Proof.
  assert (H : 0 <= 1) by lia.
  exact (conj H (proj1 (convert_to_dict_lookup ["left"; "right"]) 1 H)).
Defined.

(** ** [step] of the cooperative pong wrapper *)

Section PongStep.

Import Env CooperativePong.

Variable Inner Obs Rew Done Info : Type.
Variable inner_step :
  list Z -> Inner -> (list Obs * list Rew * list Done * list Info) * Inner.

(** X14. The action check of [step] reads
    [actions[0] or actions[1] not in (0, 1, 2)]: any non-zero first action is
    rejected, the valid values 1 and 2 among them, whatever the second action
    is; with a first action 0 the call is rejected when the second action is
    not 0, 1 or 2.  A rejected call raises before the wrapped environment is
    stepped.  Fewer than two actions raise [IndexError], unless the first one
    is non-zero. *)
Theorem pong_step_guard (a0 a1 : Z) (rest : list Z) (inner : Inner) :
  (a0 <> 0 ->
   step Inner Obs Rew Done Info inner_step (a0 :: rest) inner
   = (Raises (Exception "Actions must be 0, 1 or 2"), inner))
  /\ (a1 <> 0 -> a1 <> 1 -> a1 <> 2 ->
      step Inner Obs Rew Done Info inner_step (0 :: a1 :: rest) inner
      = (Raises (Exception "Actions must be 0, 1 or 2"), inner))
  /\ step Inner Obs Rew Done Info inner_step [] inner
     = (Raises (PyExn Py.IndexError), inner)
  /\ step Inner Obs Rew Done Info inner_step [0] inner
     = (Raises (PyExn Py.IndexError), inner).
Proof.
  split; [| split; [| split; reflexivity]].
  - intros Ha. unfold step, actions_rejected. simpl.
    destruct (Z.eqb_spec a0 0); [contradiction | reflexivity].
  - intros H0 H1 H2.
    assert (Hrej : actions_rejected (0 :: a1 :: rest) = Returns true).
    { unfold actions_rejected.
      change (getitem (0 :: a1 :: rest) 0) with (Ok 0).
      change (getitem (0 :: a1 :: rest) 1) with (Ok a1).
      unfold contains. cbn [of_py].
      change (negb (0 =? 0)) with false. cbn [existsb].
      rewrite (proj2 (Z.eqb_neq 0 a1)), (proj2 (Z.eqb_neq 1 a1)),
        (proj2 (Z.eqb_neq 2 a1)) by congruence.
      reflexivity. }
    unfold step. now rewrite Hrej.
Qed.

(** X15. An accepted call (first action 0, second action 0, 1 or 2) steps
    the wrapped environment once and returns its four lists as dictionaries
    keyed by position; the dictionary of the [done] flags holds in addition
    the first flag under ["__all__"].  When the wrapped environment returns no
    [done] flag, the call raises [IndexError] after having stepped it. *)
Theorem pong_step_results (a1 : Z) (rest : list Z) (inner inner' : Inner)
        (obs : list Obs) (rew : list Rew) (done : list Done) (info : list Info) :
  a1 = 0 \/ a1 = 1 \/ a1 = 2 ->
  inner_step (0 :: a1 :: rest) inner = ((obs, rew, done, info), inner') ->
  match done with
  | [] =>
      step Inner Obs Rew Done Info inner_step (0 :: a1 :: rest) inner
      = (Raises (PyExn Py.IndexError), inner')
  | d0 :: _ =>
      exists done_dict,
        step Inner Obs Rew Done Info inner_step (0 :: a1 :: rest) inner
        = (Returns (convert_to_dict obs, convert_to_dict rew, done_dict,
                    convert_to_dict info), inner')
        /\ dict_get key_eqb (KStr "__all__") done_dict = Some d0
        /\ forall i, 0 <= i ->
             dict_get key_eqb (KInt i) done_dict = nth_error done (Z.to_nat i)
  end.
Proof.
  intros Ha Hs.
  assert (Hok : actions_rejected (0 :: a1 :: rest) = Returns false).
  { unfold actions_rejected. simpl.
    destruct Ha as [-> | [-> | ->]]; reflexivity. }
  unfold step. rewrite Hok, Hs.
  destruct done as [| d0 done]; [reflexivity |].
  simpl. eexists. split; [reflexivity |]. split.
  - apply dict_get_set_same. exact key_eqb_iff.
  - intros i Hi. rewrite (dict_get_set_other _ _ _ key_eqb_iff) by discriminate.
    exact (convert_to_dict_get _ (d0 :: done) i Hi).
Qed.

End PongStep.

Lemma pong_step_guard_witness :
  2 <> 0
  /\ CooperativePong.step unit unit unit bool unit
       (fun _ i => (([], [], [true], []), i)) [2; 0] tt
     = (Env.Raises (Env.Exception "Actions must be 0, 1 or 2"), tt).
Proof.
  assert (H : 2 <> 0) by discriminate.
  exact (conj H (proj1 (pong_step_guard unit unit unit bool unit
                          (fun _ i => (([], [], [true], []), i)) 2 0 [0] tt) H)).
Defined.

Lemma pong_step_results_witness :
  (1 = 0 \/ 1 = 1 \/ 1 = 2)
  /\ exists done_dict,
       CooperativePong.step unit Z Z bool unit
         (fun _ i => (([10; 20], [0; 0], [true; false], [tt; tt]), i)) [0; 1] tt
       = (Env.Returns (CooperativePong.convert_to_dict [10; 20],
                       CooperativePong.convert_to_dict [0; 0], done_dict,
                       CooperativePong.convert_to_dict [tt; tt]), tt)
       /\ Env.dict_get Env.key_eqb (Env.KStr "__all__") done_dict = Some true.
Proof.
  assert (H : 1 = 0 \/ 1 = 1 \/ 1 = 2) by (right; left; reflexivity).
  split; [exact H |].
  destruct (pong_step_results unit Z Z bool unit
              (fun _ i => (([10; 20], [0; 0], [true; false], [tt; tt]), i))
              1 [] tt tt [10; 20] [0; 0] [true; false] [tt; tt] H eq_refl)
    as (dd & Hstep & Hall & _).
  exists dd. exact (conj Hstep Hall).
Defined.

(** ** The prisoners of the prison environment *)

Section PrisonFacts.

Import Env Prison.

Variable Sprite : Type.

(** [update_sprite] on explicit attributes. *)
Lemma update_sprite_eq (movement : Z) pos l r w n ft lt s1 s2 s3 st on last timer :
  update_sprite Sprite movement (mkPrisoner pos l r w n ft lt s1 s2 s3 st on last timer)
  = let on1 := if movement =? 0 then on else true in
    let timer1 := if movement =? 0 then timer else 0 in
    let last1 := if movement =? 0 then last else movement in
    let timer2 := if on1 then timer1 + 1 else timer1 in
    if timer2 >? 2 then mkPrisoner pos l r w n ft lt s1 s2 s3 st false 0 0
    else mkPrisoner pos l r w n ft lt s1 s2 s3 st on1 last1 timer2.
Proof.
  unfold update_sprite. destruct (movement =? 0), on; reflexivity.
Qed.

(** [update_sprite] touches the three sprite attributes only. *)
Lemma update_sprite_frame (movement : Z) (p : Prisoner Sprite) :
  position (update_sprite Sprite movement p) = position p
  /\ left_bound (update_sprite Sprite movement p) = left_bound p
  /\ right_bound (update_sprite Sprite movement p) = right_bound p
  /\ first_touch (update_sprite Sprite movement p) = first_touch p
  /\ last_touch (update_sprite Sprite movement p) = last_touch p.
Proof.
  destruct p as [pos l r w n ft lt s1 s2 s3 st on last timer].
  rewrite update_sprite_eq. cbv zeta.
  destruct (_ >? 2); repeat split.
Qed.

(** X16. The sprite timer stays consistent under [update_sprite], whatever
    the movement: while it is on it is 1 or 2, while it is off it is 0 and the
    still sprite is selected; so the timer never leaves [[0, 2]]. *)
Theorem update_sprite_keeps_timer (movement : Z) (p : Prisoner Sprite) :
  timer_consistent Sprite p ->
  timer_consistent Sprite (update_sprite Sprite movement p)
  /\ 0 <= sprite_timer (update_sprite Sprite movement p) <= 2.
Proof.
  destruct p as [pos l r w n ft lt s1 s2 s3 st on last timer].
  unfold timer_consistent at 1.
  cbn [sprite_timer_on sprite_timer last_sprite_movement]. intros (Hon & Hoff).
  rewrite update_sprite_eq.
  destruct (movement =? 0); destruct on; cbv beta iota zeta;
    try (specialize (Hon eq_refl)); try (destruct (Hoff eq_refl) as (-> & ->));
    match goal with |- context [?a >? 2] => destruct (Z.gtb_spec a 2) as [Hgt | Hle] end;
    unfold timer_consistent; cbn [sprite_timer_on sprite_timer last_sprite_movement];
    repeat split; intros; try lia; try discriminate.
Qed.

Lemma new_prisoner_consistent (pos : Z * Z) (l r : Z) (w : Z * Z * Z * Z)
      (nam : string) :
  timer_consistent Sprite (new_prisoner Sprite pos l r w nam).
Proof.
  unfold timer_consistent, new_prisoner.
  cbn [sprite_timer_on sprite_timer last_sprite_movement].
  split; intros; [discriminate | auto].
Qed.

(** X17. After a move the directional sprite lasts two updates: the update
    that carries the movement selects it, the next update without movement
    keeps it, and the second one returns to the still sprite and turns the
    timer off, where further updates without movement change nothing. *)
Theorem sprite_lasts_two_updates (movement : Z) (p : Prisoner Sprite) :
  movement <> 0 ->
  let p1 := update_sprite Sprite movement p in
  let p2 := update_sprite Sprite 0 p1 in
  let p3 := update_sprite Sprite 0 p2 in
  (last_sprite_movement p1 = movement /\ sprite_timer_on p1 = true /\ sprite_timer p1 = 1)
  /\ (last_sprite_movement p2 = movement /\ sprite_timer_on p2 = true
      /\ sprite_timer p2 = 2)
  /\ (last_sprite_movement p3 = 0 /\ sprite_timer_on p3 = false /\ sprite_timer p3 = 0)
  /\ update_sprite Sprite 0 p3 = p3.
Proof.
  intros Hmv. destruct p as [pos l r w n ft lt s1 s2 s3 st on last timer].
  assert (E : (movement =? 0) = false) by (now apply Z.eqb_neq).
  assert (H1 : update_sprite Sprite movement
                 (mkPrisoner pos l r w n ft lt s1 s2 s3 st on last timer)
               = mkPrisoner pos l r w n ft lt s1 s2 s3 st true movement 1)
    by (rewrite update_sprite_eq, E; reflexivity).
  assert (H2 : update_sprite Sprite 0
                 (mkPrisoner pos l r w n ft lt s1 s2 s3 st true movement 1)
               = mkPrisoner pos l r w n ft lt s1 s2 s3 st true movement 2)
    by (rewrite update_sprite_eq; reflexivity).
  assert (H3 : update_sprite Sprite 0
                 (mkPrisoner pos l r w n ft lt s1 s2 s3 st true movement 2)
               = mkPrisoner pos l r w n ft lt s1 s2 s3 st false 0 0)
    by (rewrite update_sprite_eq; reflexivity).
  assert (H4 : update_sprite Sprite 0
                 (mkPrisoner pos l r w n ft lt s1 s2 s3 st false 0 0)
               = mkPrisoner pos l r w n ft lt s1 s2 s3 st false 0 0)
    by (rewrite update_sprite_eq; reflexivity).
  cbv zeta. rewrite H1, H2, H3, H4.
  cbn [sprite_timer_on sprite_timer last_sprite_movement]. repeat split.
Qed.

(** The wall blocks of [move_prisoner] on explicit attributes. *)
Lemma touch_left_eq x y l r w n ft lt s1 s2 s3 st on last timer (reward : Z) :
  touch_left Sprite (mkPrisoner (x, y) l r w n ft lt s1 s2 s3 st on last timer, reward)
  = if x <? l then
      (mkPrisoner (l, y) l r w n (if ft =? -1 then l else ft) l
                  s1 s2 s3 st on last timer,
       if negb ((if ft =? -1 then l else ft) =? l) && (lt =? r) then 1 else reward)
    else (mkPrisoner (x, y) l r w n ft lt s1 s2 s3 st on last timer, reward).
Proof.
  unfold touch_left. cbn [position left_bound fst].
  destruct (x <? l); [| reflexivity].
  destruct (ft =? -1) eqn:E; cbn [set_position first_touch]; rewrite E; reflexivity.
Qed.

Lemma touch_right_eq x y l r w n ft lt s1 s2 s3 st on last timer (reward : Z) :
  touch_right Sprite (mkPrisoner (x, y) l r w n ft lt s1 s2 s3 st on last timer, reward)
  = if x >? r then
      (mkPrisoner (r, y) l r w n (if ft =? -1 then r else ft) r
                  s1 s2 s3 st on last timer,
       if negb ((if ft =? -1 then r else ft) =? r) && (lt =? l) then 1 else reward)
    else (mkPrisoner (x, y) l r w n ft lt s1 s2 s3 st on last timer, reward).
Proof.
  unfold touch_right. cbn [position right_bound fst].
  destruct (x >? r); [| reflexivity].
  destruct (ft =? -1) eqn:E; cbn [set_position first_touch]; rewrite E; reflexivity.
Qed.

Ltac walls_done :=
  repeat split; intros; try lia; try tauto;
  try (intuition (try lia; try congruence)).

(** The two wall blocks in a row, when the left wall is not right of the
    right wall: at most one of them fires. *)
Lemma touch_walls (p : Prisoner Sprite) :
  left_bound p <= right_bound p ->
  let x := fst (position p) in
  let p' := fst (touch_right Sprite (touch_left Sprite (p, 0))) in
  let reward := snd (touch_right Sprite (touch_left Sprite (p, 0))) in
  left_bound p' = left_bound p
  /\ right_bound p' = right_bound p
  /\ position p' = (Z.max (left_bound p) (Z.min (right_bound p) x), snd (position p))
  /\ (reward = 0 \/ reward = 1)
  /\ (reward = 1 <->
      (x < left_bound p /\ first_touch p <> -1 /\ first_touch p <> left_bound p
       /\ last_touch p = right_bound p)
      \/ (x > right_bound p /\ first_touch p <> -1 /\ first_touch p <> right_bound p
          /\ last_touch p = left_bound p))
  /\ (first_touch p <> -1 -> first_touch p' = first_touch p)
  /\ (first_touch p = -1 ->
      first_touch p' = (if x <? left_bound p then left_bound p
                        else if x >? right_bound p then right_bound p else -1))
  /\ last_touch p' = (if x <? left_bound p then left_bound p
                      else if x >? right_bound p then right_bound p
                           else last_touch p).
Proof.
  destruct p as [[x y] l r w n ft lt s1 s2 s3 st on last timer].
  cbn [left_bound right_bound position fst snd first_touch last_touch].
  intros Hlr. cbv zeta. rewrite touch_left_eq.
  destruct (Z.ltb_spec x l) as [Hxl | Hxl].
  - rewrite touch_right_eq.
    destruct (Z.gtb_spec l r) as [Hgt | _]; [lia |].
    cbn [left_bound right_bound position fst snd first_touch last_touch].
    replace (Z.max l (Z.min r x)) with l by lia.
    destruct (Z.eqb_spec ft (-1)) as [Hft | Hft].
    + rewrite Z.eqb_refl. cbn [negb andb]. walls_done.
    + destruct (Z.eqb_spec ft l) as [Hfl | Hfl]; cbn [negb andb]; [walls_done |].
      destruct (Z.eqb_spec lt r) as [Hltr | Hltr]; walls_done.
  - rewrite touch_right_eq.
    destruct (Z.gtb_spec x r) as [Hxr | Hxr];
      cbn [left_bound right_bound position fst snd first_touch last_touch].
    + replace (Z.max l (Z.min r x)) with r by lia.
      destruct (Z.eqb_spec ft (-1)) as [Hft | Hft].
      * rewrite Z.eqb_refl. cbn [negb andb]. walls_done.
      * destruct (Z.eqb_spec ft r) as [Hfr | Hfr]; cbn [negb andb]; [walls_done |].
        destruct (Z.eqb_spec lt l) as [Hltl | Hltl]; walls_done.
    + replace (Z.max l (Z.min r x)) with x by lia. walls_done.
Qed.


Lemma set_position_frame (v : Z * Z) (p : Prisoner Sprite) :
  position (set_position Sprite v p) = v
  /\ left_bound (set_position Sprite v p) = left_bound p
  /\ right_bound (set_position Sprite v p) = right_bound p
  /\ first_touch (set_position Sprite v p) = first_touch p
  /\ last_touch (set_position Sprite v p) = last_touch p.
Proof. destruct p. repeat split. Qed.

(** [move_prisoner] on a known prisoner and a scalar movement: the prisoner
    is put at [moved_x], then the two wall blocks run. *)
Lemma move_prisoner_scalar (prisoner_id : string) (movement : Z) (e : env Sprite)
      (p : Prisoner Sprite) :
  dict_get String.eqb prisoner_id (prisoners Sprite e) = Some p ->
  let q := set_position Sprite
             (moved_x Sprite (continuous Sprite e) (velocity Sprite e) movement p,
              snd (position p))
             (update_sprite Sprite movement p) in
  move_prisoner Sprite prisoner_id (Scalar movement) e
  = (Returns (snd (touch_right Sprite (touch_left Sprite (q, 0)))),
     mkEnv Sprite
       (dict_set String.eqb prisoner_id
          (fst (touch_right Sprite (touch_left Sprite (q, 0)))) (prisoners Sprite e))
       (continuous Sprite e) (velocity Sprite e)).
Proof.
  intros Hget. unfold move_prisoner, moved_x. rewrite Hget. cbv beta zeta.
  destruct (update_sprite_frame movement p) as (-> & _).
  destruct (continuous Sprite e);
    destruct (touch_right Sprite (touch_left Sprite _)) as [p' reward];
    reflexivity.
Qed.

Lemma moved_facts (prisoner_id : string) (movement : Z) (e : env Sprite)
      (p : Prisoner Sprite) :
  let q := set_position Sprite
             (moved_x Sprite (continuous Sprite e) (velocity Sprite e) movement p,
              snd (position p))
             (update_sprite Sprite movement p) in
  position q = (moved_x Sprite (continuous Sprite e) (velocity Sprite e) movement p,
                snd (position p))
  /\ left_bound q = left_bound p
  /\ right_bound q = right_bound p
  /\ first_touch q = first_touch p
  /\ last_touch q = last_touch p.
Proof.
  cbv zeta.
  destruct (set_position_frame
              (moved_x Sprite (continuous Sprite e) (velocity Sprite e) movement p,
               snd (position p))
              (update_sprite Sprite movement p)) as (-> & -> & -> & -> & ->).
  destruct (update_sprite_frame movement p) as (_ & -> & -> & -> & ->).
  repeat split.
Qed.

(** X18. [move_prisoner] keeps a prisoner between its walls: when the left
    bound is not beyond the right bound, the prisoner stored under the
    identifier ends at the moved abscissa clamped to [[left_bound,
    right_bound]], at its old ordinate and with its bounds unchanged; the
    reward is 0 or 1 and no other prisoner is touched. *)
Theorem move_prisoner_clamps (prisoner_id : string) (movement : Z) (e : env Sprite)
        (p : Prisoner Sprite) :
  dict_get String.eqb prisoner_id (prisoners Sprite e) = Some p ->
  left_bound p <= right_bound p ->
  exists reward p',
    move_prisoner Sprite prisoner_id (Scalar movement) e
    = (Returns reward,
       mkEnv Sprite (dict_set String.eqb prisoner_id p' (prisoners Sprite e))
             (continuous Sprite e) (velocity Sprite e))
    /\ dict_get String.eqb prisoner_id
         (dict_set String.eqb prisoner_id p' (prisoners Sprite e)) = Some p'
    /\ (forall other,
           other <> prisoner_id ->
           dict_get String.eqb other
             (dict_set String.eqb prisoner_id p' (prisoners Sprite e))
           = dict_get String.eqb other (prisoners Sprite e))
    /\ left_bound p' = left_bound p
    /\ right_bound p' = right_bound p
    /\ position p'
       = (Z.max (left_bound p)
            (Z.min (right_bound p)
               (moved_x Sprite (continuous Sprite e) (velocity Sprite e) movement p)),
          snd (position p))
    /\ left_bound p <= fst (position p') <= right_bound p
    /\ (reward = 0 \/ reward = 1).
Proof.
  intros Hget Hlr.
  pose proof (move_prisoner_scalar prisoner_id movement e p Hget) as Hmove.
  destruct (moved_facts prisoner_id movement e p) as (Hpos & Hl & Hr & _ & _).
  cbv zeta in Hmove, Hpos, Hl, Hr.
  set (q := set_position Sprite _ _) in *.
  assert (Hq : left_bound q <= right_bound q) by (rewrite Hl, Hr; exact Hlr).
  pose proof (touch_walls q Hq) as Hw. cbv zeta in Hw.
  destruct Hw as (Hl' & Hr' & Hp' & Hrew & _).
  rewrite Hl, Hr, Hpos in Hp'. cbn [fst snd] in Hp'.
  eexists _, _. split; [exact Hmove |].
  split; [apply dict_get_set_same; exact String.eqb_eq |].
  split; [intros other Hne; apply dict_get_set_other; [exact String.eqb_eq | exact Hne] |].
  split; [now rewrite Hl', Hl |]. split; [now rewrite Hr', Hr |].
  split; [exact Hp' |]. split; [rewrite Hp'; cbn [fst]; lia | exact Hrew].
Qed.

(** X19. The reward of [move_prisoner] is 1 exactly when the move runs into
    a wall that is not the first wall the prisoner ever touched, coming from
    the opposite wall; a prisoner that has touched no wall yet, or that runs
    into its first wall, gets 0.  [first_touch] is written once, at the first
    wall contact, and [last_touch] records the wall hit by the move. *)
Theorem move_prisoner_reward (prisoner_id : string) (movement : Z) (e : env Sprite)
        (p : Prisoner Sprite) :
  dict_get String.eqb prisoner_id (prisoners Sprite e) = Some p ->
  left_bound p <= right_bound p ->
  let x := moved_x Sprite (continuous Sprite e) (velocity Sprite e) movement p in
  exists reward p',
    move_prisoner Sprite prisoner_id (Scalar movement) e
    = (Returns reward,
       mkEnv Sprite (dict_set String.eqb prisoner_id p' (prisoners Sprite e))
             (continuous Sprite e) (velocity Sprite e))
    /\ (reward = 1 <->
        (x < left_bound p /\ first_touch p <> -1 /\ first_touch p <> left_bound p
         /\ last_touch p = right_bound p)
        \/ (x > right_bound p /\ first_touch p <> -1
            /\ first_touch p <> right_bound p /\ last_touch p = left_bound p))
    /\ (first_touch p <> -1 -> first_touch p' = first_touch p)
    /\ (first_touch p = -1 ->
        first_touch p' = (if x <? left_bound p then left_bound p
                          else if x >? right_bound p then right_bound p else -1))
    /\ last_touch p' = (if x <? left_bound p then left_bound p
                        else if x >? right_bound p then right_bound p
                             else last_touch p).
Proof.
  intros Hget Hlr x.
  pose proof (move_prisoner_scalar prisoner_id movement e p Hget) as Hmove.
  destruct (moved_facts prisoner_id movement e p) as (Hpos & Hl & Hr & Hft & Hlt).
  cbv zeta in Hmove, Hpos, Hl, Hr, Hft, Hlt.
  set (q := set_position Sprite _ _) in *.
  assert (Hq : left_bound q <= right_bound q) by (rewrite Hl, Hr; exact Hlr).
  pose proof (touch_walls q Hq) as Hw. cbv zeta in Hw.
  destruct Hw as (_ & _ & _ & _ & Hiff & Hkeep & Hset & Hlast).
  rewrite Hl, Hr, Hft, Hlt, Hpos in *. cbn [fst snd] in *.
  eexists _, _. split; [exact Hmove |].
  split; [exact Hiff |]. split; [exact Hkeep |]. split; [exact Hset | exact Hlast].
Qed.

End PrisonFacts.

Lemma update_sprite_keeps_timer_witness :
  let p := Prison.new_prisoner unit (200, 110) 50 300 (50, 50, 350, 150) "prisoner_0" in
  Prison.timer_consistent unit p
  /\ Prison.timer_consistent unit (Prison.update_sprite unit 1 p).
Proof.
  intros p.
  assert (H : Prison.timer_consistent unit p) by apply new_prisoner_consistent.
  exact (conj H (proj1 (update_sprite_keeps_timer unit 1 p H))).
Defined.

Lemma sprite_lasts_two_updates_witness :
  let p := Prison.new_prisoner unit (200, 110) 50 300 (50, 50, 350, 150) "prisoner_0" in
  -1 <> 0
  /\ Prison.last_sprite_movement
       (Prison.update_sprite unit 0 (Prison.update_sprite unit (-1) p)) = -1
  /\ Prison.last_sprite_movement
       (Prison.update_sprite unit 0
          (Prison.update_sprite unit 0 (Prison.update_sprite unit (-1) p))) = 0.
Proof.
  intros p.
  assert (H : -1 <> 0) by discriminate.
  destruct (sprite_lasts_two_updates unit (-1) p H) as (_ & (H2 & _) & (H3 & _) & _).
  exact (conj H (conj H2 H3)).
Defined.

Lemma move_prisoner_clamps_witness :
  let p := Prison.mkPrisoner (56, 110) 50 300 (50, 50, 350, 150) "prisoner_0"
             (-1) (-1) (@None unit) None None 0 false 0 0 in
  let e := Prison.mkEnv unit [("prisoner_0", p)] false 8 in
  Env.dict_get String.eqb "prisoner_0" (Prison.prisoners unit e) = Some p
  /\ Prison.left_bound p <= Prison.right_bound p
  /\ exists reward p',
       Prison.move_prisoner unit "prisoner_0" (Prison.Scalar (-1)) e
       = (Env.Returns reward,
          Prison.mkEnv unit
            (Env.dict_set String.eqb "prisoner_0" p' (Prison.prisoners unit e))
            false 8)
       /\ Prison.position p' = (50, 110).
Proof.
  intros p e.
  assert (Hget : Env.dict_get String.eqb "prisoner_0" (Prison.prisoners unit e) = Some p)
    by reflexivity.
  assert (Hlr : Prison.left_bound p <= Prison.right_bound p)
    by (vm_compute; discriminate).
  split; [exact Hget |]. split; [exact Hlr |].
  destruct (move_prisoner_clamps unit "prisoner_0" (-1) e p Hget Hlr)
    as (reward & p' & Hmove & _ & _ & _ & _ & Hpos & _).
  exists reward, p'. split; [exact Hmove | exact Hpos].
Defined.

Lemma move_prisoner_reward_witness :
  let p := Prison.mkPrisoner (296, 110) 50 300 (50, 50, 350, 150) "prisoner_0"
             50 50 (@None unit) None None 0 false 0 0 in
  let e := Prison.mkEnv unit [("prisoner_0", p)] false 8 in
  Env.dict_get String.eqb "prisoner_0" (Prison.prisoners unit e) = Some p
  /\ Prison.left_bound p <= Prison.right_bound p
  /\ exists p',
       Prison.move_prisoner unit "prisoner_0" (Prison.Scalar 1) e
       = (Env.Returns 1,
          Prison.mkEnv unit
            (Env.dict_set String.eqb "prisoner_0" p' (Prison.prisoners unit e))
            false 8).
Proof.
  intros p e.
  assert (Hget : Env.dict_get String.eqb "prisoner_0" (Prison.prisoners unit e) = Some p)
    by reflexivity.
  assert (Hlr : Prison.left_bound p <= Prison.right_bound p)
    by (vm_compute; discriminate).
  split; [exact Hget |]. split; [exact Hlr |].
  destruct (move_prisoner_reward unit "prisoner_0" 1 e p Hget Hlr)
    as (reward & p' & Hmove & Hiff & _).
  assert (Hr : reward = 1).
  { apply Hiff. right. vm_compute. repeat split; discriminate. }
  subst reward. exists p'. exact Hmove.
Defined.

(** ** The stored position and the index of the selection *)

(** C7, amended. After any sequence of calls that returned, the position
    stored by the fixed-order selector on a non-empty order lies in
    [[0, len(order))].  The hierarchical and dynamic selectors store a
    non-negative count that is not wrapped: a non-manager call selects the
    identifier found at the index [position % len(cycle)] of its cycle, an
    index in [[0, len(cycle))], and leaves the position one above the one it
    read (in the dynamic selector the stored position, or 0 when the eligible
    cycle has changed); [n] further such calls add [n] to it. *)
Theorem position_bounds (s1 : AgentSelector.t) (s2 : AgentSelector2.t)
        (s3 : AgentSelector3.t) :
  AgentSelector.reachable s1 ->
  AgentSelector2.reachable s2 ->
  AgentSelector3.reachable s3 ->
  (AgentSelector.agent_order s1 <> [] ->
   0 <= AgentSelector._current_agent s1 < len (AgentSelector.agent_order s1))
  /\ (0 <= AgentSelector2._current_index s2
      /\ forall m c act,
           Hierarchical.manager_call m act = false ->
           exists a s2',
             AgentSelector2.next m c act s2 = (Ok (Some a), s2')
             /\ 0 <= AgentSelector2._current_index s2 mod len (Hierarchical.sub_cycle s2)
                < len (Hierarchical.sub_cycle s2)
             /\ getitem (AgentSelector2.agent_order s2)
                  (nth (Z.to_nat (AgentSelector2._current_index s2
                                  mod len (Hierarchical.sub_cycle s2)))
                       (Hierarchical.sub_cycle s2) 0) = Ok a
             /\ AgentSelector2._current_index s2' = AgentSelector2._current_index s2 + 1
             /\ forall n,
                  exists outs sn,
                    repeat_call n (AgentSelector2.next m c act) s2' = (Ok outs, sn)
                    /\ AgentSelector2._current_index sn
                       = AgentSelector2._current_index s2' + Z.of_nat n)
  /\ (0 <= AgentSelector3._current_index s3
      /\ forall act,
           len (AgentSelector3.workstation_indices s3) <= len act ->
           exists cycle synced a s3',
             AgentSelector3.agents_in_cycle act s3 = (Ok cycle, s3)
             /\ AgentSelector3.sync_cycle cycle s3 = (Ok tt, synced)
             /\ (cycle = AgentSelector3._previous_agents_in_cycle_indices s3 ->
                 AgentSelector3._current_index synced = AgentSelector3._current_index s3)
             /\ (cycle <> AgentSelector3._previous_agents_in_cycle_indices s3 ->
                 AgentSelector3._current_index synced = 0)
             /\ AgentSelector3.next false act s3 = (Ok (Some a), s3')
             /\ 0 <= AgentSelector3._current_index synced mod len cycle < len cycle
             /\ getitem (AgentSelector3.agent_order s3)
                  (nth (Z.to_nat (AgentSelector3._current_index synced mod len cycle))
                       cycle 0) = Ok a
             /\ AgentSelector3._current_index s3'
                = AgentSelector3._current_index synced + 1
             /\ forall n,
                  exists outs sn,
                    repeat_call n (AgentSelector3.next false act) s3' = (Ok outs, sn)
                    /\ AgentSelector3._current_index sn
                       = AgentSelector3._current_index s3' + Z.of_nat n).
Proof.
  intros H1 H2 H3. split; [| split].
  - intros Hne. pose proof (reachable_position1 s1 H1) as (H0 & Hlt).
    split; [exact H0 | exact (Hlt Hne)].
  - pose proof (reachable_wf2 s2 H2) as Hwf.
    split; [exact (proj2 Hwf) |].
    intros m c act Hm.
    destruct (next_cycle2 s2 m c act Hwf Hm) as (a & Ha & Hn).
    pose proof (next_wf2 _ _ _ _ _ _ Hwf Hn) as Hwf'.
    exists a. eexists. split; [exact Hn |].
    split; [apply Z.mod_pos_bound; apply sub_cycle_pos |].
    split; [exact Ha |]. split; [reflexivity |].
    intros n.
    destruct (repeat_next_outputs2 m c act n _ Hwf' Hm) as (outs & sn & Hrun & _ & Hc & _).
    exists outs, sn. split; [exact Hrun | exact Hc].
  - pose proof (reachable_wf3 s3 H3) as (Hwf & H0).
    split; [exact H0 |].
    intros act Hlen.
    destruct (next_cycle3 s3 act Hwf Hlen)
      as (cycle & synced & a & Hcyc & Hne & Hsync & Hcase & Ha & Hn).
    exists cycle, synced, a. eexists.
    split; [exact Hcyc |]. split; [exact Hsync |].
    split; [intros Heq; destruct Hcase as [(_ & ->) | (Hd & _)];
            [reflexivity | contradiction] |].
    split; [intros Hd; destruct Hcase as [(Heq & _) | (_ & Hz & _)];
            [contradiction | exact Hz] |].
    split; [exact Hn |].
    split.
    { apply Z.mod_pos_bound.
      destruct cycle; [congruence | rewrite len_cons; pose proof (len_nonneg cycle); lia]. }
    split; [exact Ha |]. split; [reflexivity |].
    intros n.
    destruct (repeat_next_unchanged act cycle n
                (Dynamic.advanced s3 (AgentSelector3._current_index synced + 1) a
                   (AgentSelector3._previous_agents_in_cycle_indices synced)))
      as (outs & sn & Hrun & Hc & _).
    + exact Hwf.
    + exact Hlen.
    + now apply agents_in_cycle_advanced.
    + destruct Hcase as [(Heq & ->) | (_ & _ & Hp)]; [now symmetry | exact Hp].
    + exists outs, sn. split; [exact Hrun | exact Hc].
Qed.

(** Selectors in the middle of a run: the fixed-order one after [reset] and
    one [next], the hierarchical one after four non-manager calls (position 4
    on a sub-cycle of length 3), the dynamic one after [reset] and two calls
    with [[1, 0]] (position 2 on a cycle of length 2). *)
Lemma position_bounds_witness :
  let players := [VStr "player1"; VStr "player2"; VStr "player3"] in
  let s1 := AgentSelector.mk players 2 (VStr "player2") in
  let s2 := AgentSelector2.mk scenario_order 0 [1; 2] 3 4 (Some "workstation_0") in
  let s3 := AgentSelector3.mk scenario_order 0 [1; 2] 3 2 (Some "coordination") [1; 3] in
  AgentSelector.reachable s1
  /\ AgentSelector2.reachable s2
  /\ AgentSelector3.reachable s3
  /\ AgentSelector.agent_order s1 <> []
  /\ 0 <= AgentSelector._current_agent s1 < len (AgentSelector.agent_order s1)
  /\ (exists a s2',
         AgentSelector2.next false false [] s2 = (Ok (Some a), s2')
         /\ getitem scenario_order (nth (Z.to_nat (4 mod 3)) [1; 2; 3] 0) = Ok a
         /\ AgentSelector2._current_index s2' = 5)
  /\ (exists a s3',
         AgentSelector3.next false [1; 0] s3 = (Ok (Some a), s3')
         /\ AgentSelector3._current_index s3' = 3).
Proof.
  intros players s1 s2 s3.
  assert (H1 : AgentSelector.reachable s1).
  { apply (AgentSelector.reach_call (AgentSelector.mk players 1 (VStr "player1"))
             AgentSelector.Next (VStr "player2")); [| vm_compute; reflexivity].
    apply (AgentSelector.reach_call (AgentSelector.__init__ players)
             AgentSelector.Reset (VStr "player1")); [| vm_compute; reflexivity].
    apply AgentSelector.reach_init. }
  assert (H2 : AgentSelector2.reachable s2).
  { set (st := fun cur sel => AgentSelector2.mk scenario_order 0 [1; 2] 3 cur sel).
    apply (AgentSelector2.reach_call (st 3 (Some "coordination"))
             (AgentSelector2.Next false false []) (Some "workstation_0"));
      [| vm_compute; reflexivity].
    apply (AgentSelector2.reach_call (st 2 (Some "workstation_1"))
             (AgentSelector2.Next false false []) (Some "coordination"));
      [| vm_compute; reflexivity].
    apply (AgentSelector2.reach_call (st 1 (Some "workstation_0"))
             (AgentSelector2.Next false false []) (Some "workstation_1"));
      [| vm_compute; reflexivity].
    apply (AgentSelector2.reach_call (st 0 None)
             (AgentSelector2.Next false false []) (Some "workstation_0"));
      [| vm_compute; reflexivity].
    apply (AgentSelector2.reach_init scenario_order). vm_compute. reflexivity. }
  assert (H3 : AgentSelector3.reachable s3).
  { apply (AgentSelector3.reach_call
             (AgentSelector3.mk scenario_order 0 [1; 2] 3 1 (Some "workstation_0") [1; 3])
             (AgentSelector3.Next false [1; 0]) (Some "coordination"));
      [| vm_compute; reflexivity].
    apply (AgentSelector3.reach_call
             (AgentSelector3.mk scenario_order 0 [1; 2] 3 0 (Some "manager") [])
             (AgentSelector3.Next false [1; 0]) (Some "workstation_0"));
      [| vm_compute; reflexivity].
    apply (AgentSelector3.reach_call
             (AgentSelector3.mk scenario_order 0 [1; 2] 3 0 None [])
             AgentSelector3.Reset (Some "manager")); [| vm_compute; reflexivity].
    apply (AgentSelector3.reach_init scenario_order). vm_compute. reflexivity. }
  assert (Hne : AgentSelector.agent_order s1 <> []) by discriminate.
  assert (Hlen : len (AgentSelector3.workstation_indices s3) <= len [1; 0])
    by (vm_compute; discriminate).
  destruct (position_bounds s1 s2 s3 H1 H2 H3) as (P1 & (_ & P2) & (_ & P3)).
  split; [exact H1 |]. split; [exact H2 |]. split; [exact H3 |].
  split; [exact Hne |]. split; [exact (P1 Hne) |]. split.
  - destruct (P2 false false [] eq_refl) as (a & s2' & Hn & _ & Ha & Hc & _).
    exists a, s2'. split; [exact Hn |]. split; [exact Ha | exact Hc].
  - destruct (P3 [1; 0] Hlen)
      as (cycle & synced & a & s3' & Hcyc & Hsync & Hsame & _ & Hn & _ & _ & Hc & _).
    exists a, s3'. split; [exact Hn |].
    assert (Hcycle : cycle = [1; 3]).
    { assert (E : AgentSelector3.agents_in_cycle [1; 0] s3 = (Ok [1; 3], s3))
        by (vm_compute; reflexivity).
      rewrite E in Hcyc. now injection Hcyc as <-. }
    rewrite Hc, (Hsame Hcycle). reflexivity.
Defined.
